(** * Decision-boundary renderer ([neural-networks/boundary_simple.py])

    A shallow embedding of [plot_decision_boundary] and of the NumPy
    operations it calls.  The function is written once over an interface
    of scalar arithmetic and read at two instances: IEEE binary64 (the
    arithmetic the Python code runs on) and exact rationals (the
    arithmetic the prose of the specification reasons in).  Calls of the
    classifier [f] and of the plotting backend are recorded in a trace. *)

From Stdlib Require Import List ZArith QArith Qround Floats Uint63 Lia Lqa Bool Arith.
Import ListNotations.
Set Warnings "-inexact-float".

(** ** Scalars *)

(** What the code asks of its numbers.  [lit] is the value a decimal
    literal of the source denotes, [ceil_intp] is the ceiling taken by
    [np.arange] when it sizes its result ([None] when the ceiling is not
    a finite number) and [of_intp] the conversion of an index. *)
Class Scalar (num : Type) : Type := {
  lit : Q -> num;
  num_add : num -> num -> num;
  num_sub : num -> num -> num;
  num_mul : num -> num -> num;
  num_div : num -> num -> num;
  num_ltb : num -> num -> bool;
  isnan : num -> bool;
  ceil_intp : num -> option Z;
  of_intp : Z -> num
}.

Declare Scope num_scope.
Delimit Scope num_scope with num.
Infix "+" := num_add : num_scope.
Infix "-" := num_sub : num_scope.
Infix "*" := num_mul : num_scope.
Infix "/" := num_div : num_scope.
Infix "<?" := num_ltb : num_scope.

(** *** binary64 *)

Module F64.

Definition of_Z (z : Z) : float :=
  if (z <? 0)%Z then PrimFloat.opp (PrimFloat.of_uint63 (Uint63.of_Z (- z)))
  else PrimFloat.of_uint63 (Uint63.of_Z z).

(** A decimal literal is the correctly rounded quotient of its
    numerator and denominator, both exact in binary64. *)
Definition of_decimal (q : Q) : float :=
  PrimFloat.div (of_Z (Qnum q)) (of_Z (Z.pos (Qden q))).

(** The ceiling of [(-1)^s * m * 2^e]. *)
Definition ceil_SF (x : spec_float) : option Z :=
  match x with
  | S754_zero _ => Some 0%Z
  | S754_finite s m e => Some (- Z.shiftl (- cond_Zopp s (Z.pos m)) e)%Z
  | S754_infinity _ | S754_nan => None
  end.

Definition ceil (x : float) : option Z := ceil_SF (Prim2SF x).

End F64.

#[export] Instance float_Scalar : Scalar float := {
  lit := F64.of_decimal;
  num_add := PrimFloat.add;
  num_sub := PrimFloat.sub;
  num_mul := PrimFloat.mul;
  num_div := PrimFloat.div;
  num_ltb := PrimFloat.ltb;
  isnan := PrimFloat.is_nan;
  ceil_intp := F64.ceil;
  of_intp := F64.of_Z
}.

(** *** Exact rationals *)

#[export] Instance Q_Scalar : Scalar Q := {
  lit := fun q => q;
  num_add := Qplus;
  num_sub := Qminus;
  num_mul := Qmult;
  num_div := Qdiv;
  num_ltb := fun a b => negb (Qle_bool b a);
  isnan := fun _ => false;
  ceil_intp := fun q => Some (Qceiling q);
  of_intp := inject_Z
}.

(** ** Exceptions, events and the trace monad *)

(** The three NumPy raises on the path of the function. *)
Inductive np_error : Type :=
| ZeroSizeReduction   (* ValueError: zero-size array to reduction operation *)
| ArangeLength        (* arange: cannot compute length / length out of range *)
| ReshapeSize.        (* ValueError: cannot reshape array *)

(** The exceptions a call can end in: those of NumPy, and whatever
    foreign code (the classifier or the plotting backend) raises,
    carried unchanged. *)
Inductive exn (E : Type) : Type :=
| NumPy (e : np_error)
| Raised (e : E).
Arguments NumPy {E} e.
Arguments Raised {E} e.

(** A two-dimensional array: its shape and its elements in C order. *)
Record ndarray (A : Type) : Type := mk_ndarray {
  shape : nat * nat;
  ravel : list A
}.
Arguments mk_ndarray {A} shape ravel.
Arguments shape {A} n.
Arguments ravel {A} n.

(** Element [(i, j)] of a two-dimensional array. *)
Definition get {A : Type} (a : ndarray A) (i j : nat) : option A :=
  if (i <? fst (shape a)) && (j <? snd (shape a))
  then nth_error (ravel a) (i * snd (shape a) + j)
  else None.

Inductive cmap : Type := Spectral.

(** What a call does that its caller can see: calls of [f] and drawing
    commands. *)
Inductive event (num label : Type) : Type :=
| Call (v : list num)
| Figure (figsize : Z * Z)
| Contourf (xx yy : ndarray num) (Z_ : ndarray Z) (c : cmap)
| Scatter (x y : list num) (s : Z) (c : list label) (cm : cmap).
Arguments Call {num label} v.
Arguments Figure {num label} figsize.
Arguments Contourf {num label} xx yy Z_ c.
Arguments Scatter {num label} x y s c cm.

Definition is_call {num label : Type} (ev : event num label) : bool :=
  match ev with Call _ => true | _ => false end.

Definition is_scatter {num label : Type} (ev : event num label) : bool :=
  match ev with Scatter _ _ _ _ _ => true | _ => false end.

Section Renderer.

Context {num : Type} {SC : Scalar num} {label E : Type}.

Local Open Scope num_scope.

Local Abbreviation event := (event num label).

(** A computation reads the trace so far and returns the trace it
    leaves with an exception or a value. *)
Definition M (A : Type) : Type := list event -> list event * (exn E + A).

Definition ret {A : Type} (a : A) : M A := fun tr => (tr, inr a).

Definition bind {A B : Type} (m : M A) (k : A -> M B) : M B :=
  fun tr =>
    match m tr with
    | (tr', inl e) => (tr', inl e)
    | (tr', inr a) => k a tr'
    end.

Definition lift {A : Type} (r : np_error + A) : M A :=
  fun tr =>
    match r with
    | inl e => (tr, inl (NumPy e))
    | inr a => (tr, inr a)
    end.

Notation "x <- m ;; k" := (bind m (fun x => k))
  (at level 61, m at next level, right associativity).
Notation "' p <- m ;; k" := (bind m (fun x => match x with p => k end))
  (at level 61, p pattern, m at next level, right associativity).

(** The classifier: a function of one vector that returns a score or
    raises. *)
Definition classifier : Type := list num -> E + num.

(** The plotting backend: a drawing command returns or raises. *)
Definition backend : Type := event -> option E.

Definition call (f : classifier) (v : list num) : M num :=
  fun tr =>
    match f v with
    | inl e => (tr ++ [Call v], inl (Raised e))
    | inr r => (tr ++ [Call v], inr r)
    end.

Definition draw (plt : backend) (c : event) : M unit :=
  fun tr =>
    match plt c with
    | Some e => (tr ++ [c], inl (Raised e))
    | None => (tr ++ [c], inr tt)
    end.

(** ** NumPy *)

(** [X[:,0]] and [X[:,1]] of an N x 2 array. *)
Definition col0 (X : list (num * num)) : list num := map fst X.
Definition col1 (X : list (num * num)) : list num := map snd X.

(** [np.minimum] and [np.maximum]: a NaN wins. *)
Definition np_minimum (a b : num) : num :=
  if isnan a then a else if a <? b then a else b.
Definition np_maximum (a b : num) : num :=
  if isnan a then a else if b <? a then a else b.

(** [a.min()] and [a.max()]: a reduction with no identity. *)
Definition np_min (a : list num) : np_error + num :=
  match a with
  | [] => inl ZeroSizeReduction
  | x :: r => inr (fold_left np_minimum r x)
  end.
Definition np_max (a : list num) : np_error + num :=
  match a with
  | [] => inl ZeroSizeReduction
  | x :: r => inr (fold_left np_maximum r x)
  end.

Definition intp_max : Z := (2 ^ 63 - 1)%Z.

(** Element [i] of [np.arange(start, stop, step)]: the first two are
    stored, the rest filled from their difference. *)
Definition arange_item (start step : num) (i : nat) : num :=
  match i with
  | O => start
  | S O => start + step
  | _ => start + of_intp (Z.of_nat i) * ((start + step) - start)
  end.

(** [np.arange(start, stop, step)]: [ceil((stop - start) / step)]
    elements, none when that is not positive. *)
Definition arange (start stop step : num) : np_error + list num :=
  match ceil_intp ((stop - start) / step) with
  | None => inl ArangeLength
  | Some len =>
      if (intp_max <? len)%Z then inl ArangeLength
      else inr (map (arange_item start step) (seq 0 (Z.to_nat len)))
  end.

(** [np.meshgrid(x, y)]: both of shape [(len y, len x)]; the first
    repeats [x] along the rows, the second [y] along the columns. *)
Definition meshgrid (x y : list num) : ndarray num * ndarray num :=
  (mk_ndarray (length y, length x) (flat_map (fun _ => x) y),
   mk_ndarray (length y, length x) (flat_map (fun y_i => map (fun _ => y_i) x) y)).

(** [np.array(a).reshape(sh)]. *)
Definition reshape {A : Type} (a : list A) (sh : nat * nat) : np_error + ndarray A :=
  if (length a =? fst sh * snd sh)%nat then inr (mk_ndarray sh a)
  else inl ReshapeSize.

(** ** plot_decision_boundary *)

Definition padding : num := lit 0.15.
Definition res : num := lit 0.01.

(** Lines 12 and 13: the smallest and largest value of each column. *)
Definition raw_bounds (X : list (num * num)) : np_error + (num * num * num * num) :=
  match np_min (col0 X), np_max (col0 X) with
  | inl e, _ | inr _, inl e => inl e
  | inr x_min, inr x_max =>
    match np_min (col1 X), np_max (col1 X) with
    | inl e, _ | inr _, inl e => inl e
    | inr y_min, inr y_max => inr (x_min, x_max, y_min, y_max)
    end
  end.

(** Lines 12 to 23: the bounds of the data, widened on each axis by
    [padding] times the range of that axis. *)
Definition padded_bounds (X : list (num * num)) : np_error + (num * num * num * num) :=
  match raw_bounds X with
  | inl e => inl e
  | inr (x_min, x_max, y_min, y_max) =>
      let x_range := x_max - x_min in
      let y_range := y_max - y_min in
      let x_min' := x_min - x_range * padding in
      let y_min' := y_min - y_range * padding in
      let x_max' := x_max + x_range * padding in
      let y_max' := y_max + y_range * padding in
      inr (x_min', x_max', y_min', y_max')
  end.

(** Line 26: the mesh of the two sampled axes. *)
Definition make_grid (X : list (num * num)) : np_error + (ndarray num * ndarray num) :=
  match padded_bounds X with
  | inl e => inl e
  | inr (x_min, x_max, y_min, y_max) =>
    match arange x_min x_max res with
    | inl e => inl e
    | inr xs =>
      match arange y_min y_max res with
      | inl e => inl e
      | inr ys => inr (meshgrid xs ys)
      end
    end
  end.

(** The expression appended on line 35. *)
Definition threshold (r : num) : Z := if lit 0.5 <? r then 1%Z else 0%Z.

(** Lines 33 to 35: [Z_] grows by one label per pair of the zip. *)
Fixpoint classify_loop (f : classifier) (pts : list (num * num)) (Z_ : list Z)
  : M (list Z) :=
  match pts with
  | [] => ret Z_
  | (x_i, y_i) :: rest =>
      r <- call f [x_i; y_i] ;;
      classify_loop f rest (Z_ ++ [threshold r])
  end.

Definition plot_decision_boundary (plt : backend) (f : classifier)
    (X : list (num * num)) (Y : list label) : M unit :=
  ' (xx, yy) <- lift (make_grid X) ;;
  Z_ <- classify_loop f (combine (ravel xx) (ravel yy)) [] ;;
  Z_ <- lift (reshape Z_ (shape xx)) ;;
  _ <- draw plt (Figure (8, 6)%Z) ;;
  _ <- draw plt (Contourf xx yy Z_ Spectral) ;;
  draw plt (Scatter (col0 X) (col1 X) 35%Z Y Spectral).

(** One call, from the empty trace. *)
Definition run (plt : backend) (f : classifier) (X : list (num * num))
    (Y : list label) : list event * (exn E + unit) :=
  plot_decision_boundary plt f X Y [].

End Renderer.

(** The coordinates of a mesh in C order: the second axis outside, the
    first inside. *)
Definition coords {num : Type} (xs ys : list num) : list (num * num) :=
  flat_map (fun y_i => map (fun x_i => (x_i, y_i)) xs) ys.

(** The call of [f] made for a pair of the zip. *)
Definition call_at {num label : Type} (p : num * num) : event num label :=
  Call [fst p; snd p].

(** [f] returns [r] at the pair [p]. *)
Definition scored {num E : Type} (f : list num -> E + num) (p : num * num) (r : num)
  : Prop :=
  f [fst p; snd p] = inr r.

(** Lines 41 to 45, entered with the trace [tr]: the three drawing
    commands in turn, up to the first that raises. *)
Definition drawing {num label E : Type} (plt : event num label -> option E)
    (xx yy : ndarray num) (Z_ : ndarray Z) (X : list (num * num)) (Y : list label)
    (tr : list (event num label)) : list (event num label) * (exn E + unit) :=
  match plt (Figure (8, 6)%Z) with
  | Some e => (tr ++ [Figure (8, 6)%Z], inl (Raised e))
  | None =>
    match plt (Contourf xx yy Z_ Spectral) with
    | Some e => (tr ++ [Figure (8, 6)%Z; Contourf xx yy Z_ Spectral], inl (Raised e))
    | None =>
      (tr ++ [Figure (8, 6)%Z; Contourf xx yy Z_ Spectral;
              Scatter (col0 X) (col1 X) 35%Z Y Spectral],
       match plt (Scatter (col0 X) (col1 X) 35%Z Y Spectral) with
       | Some e => inl (Raised e)
       | None => inr tt
       end)
    end
  end.

(** ** Inputs used below *)

Module Inputs.

(** A backend that draws whatever it is asked to. *)
Definition accept {num label E : Type} : event num label -> option E := fun _ => None.

(** A classifier whose score is the first coordinate. *)
Definition by_x : list float -> nat + float := fun v => inr (hd 0%float v).

(** A classifier that raises right of 0.5. *)
Definition raises_right : list float -> nat + float :=
  fun v => if PrimFloat.ltb 0.5 (hd 0%float v) then inl 7%nat else inr 0%float.

(** Two points whose padded box is sampled twice on each axis; the
    second abscissa is the binary64 number printed 0.5076923076923077. *)
Definition X_two : list (float * float) :=
  [(0.5, 0); (0x1.03f03f03f03f0p-1, 0.01)]%float.
Definition Y_two : list Z := [0; 1]%Z.

(** Two points two apart at a magnitude where binary64 is spaced by 2. *)
Definition X_far : list (float * float) :=
  [(10000000000000000, 0); (10000000000000002, 1)]%float.

(** The same kind of data in exact arithmetic. *)
Definition X_exact : list (Q * Q) := [(0, 0); (1 # 50, 1 # 100)]%Q.

Definition xx_two : ndarray float :=
  Eval vm_compute in
    match make_grid X_two with inr g => fst g | inl _ => mk_ndarray (0, 0)%nat [] end.
Definition yy_two : ndarray float :=
  Eval vm_compute in
    match make_grid X_two with inr g => snd g | inl _ => mk_ndarray (0, 0)%nat [] end.
Definition Z_two : ndarray Z := mk_ndarray (2, 2)%nat [0; 1; 0; 1]%Z.

(** The samples of the two axes of [X_two] and of [X_far]. *)
Definition xs_two : list float :=
  [0x1.fed186b204b9ep-2; 0x1.04877baaede21p-1]%float.
Definition ys_two : list float := [-0.0015; 0.0085000000000000006]%float.
Definition xs_far : list float :=
  match arange 10000000000000000%float 10000000000000002%float (lit 0.01) with
  | inr l => l
  | inl _ => []
  end.
Definition ys_far : list float :=
  match arange (-0x1.3333333333333p-3)%float 0x1.2666666666666p+0%float (lit 0.01) with
  | inr l => l
  | inl _ => []
  end.

End Inputs.

Module MoreInputs.

(** A single point. *)
Definition X_one : list (float * float) := [(5, 5)]%float.

(** Two points, the second with no abscissa. *)
Definition X_nan : list (float * float) := [(0.5, 0); (nan, 1)]%float.

(** A backend that refuses to fill contours. *)
Definition refuse_contour : event float Z -> option nat :=
  fun c => match c with Contourf _ _ _ _ => Some 3%nat | _ => None end.

(** A classifier that answers 1 right of 0.5 and 0 elsewhere. *)
Definition step_x : list float -> nat + float :=
  fun v => if PrimFloat.ltb 0.5 (hd 0%float v) then inr 1%float else inr 0%float.

End MoreInputs.

(** ** Facts on lists and meshes *)

Section Mesh.

Context {A : Type}.

Lemma length_coords (xs ys : list A) :
  length (coords xs ys) = (length ys * length xs)%nat.
Proof.
  unfold coords. induction ys as [|y ys IH]; simpl; [reflexivity|].
  rewrite length_app, length_map, IH. reflexivity.
Qed.

(** Position [i * len xs + j] of the mesh holds [(xs[j], ys[i])]. *)
Lemma nth_error_coords (xs ys : list A) (i j : nat) (x y : A) :
  nth_error xs j = Some x -> nth_error ys i = Some y ->
  nth_error (coords xs ys) (i * length xs + j) = Some (x, y).
Proof.
  unfold coords. revert i. induction ys as [|y0 ys IH]; intros i Hx Hy.
  - destruct i; discriminate.
  - assert (Hj : (j < length xs)%nat) by (apply nth_error_Some; congruence).
    destruct i as [|i]; simpl in *.
    + injection Hy as ->.
      rewrite nth_error_app1 by (rewrite length_map; lia).
      rewrite nth_error_map, Hx. reflexivity.
    + rewrite nth_error_app2 by (rewrite length_map; lia).
      rewrite length_map.
      replace (length xs + i * length xs + j - length xs)%nat
        with (i * length xs + j)%nat by lia.
      apply IH; assumption.
Qed.

Lemma nth_error_combine (a b : list A) (k : nat) (x y : A) :
  nth_error (combine a b) k = Some (x, y) ->
  nth_error a k = Some x /\ nth_error b k = Some y.
Proof.
  revert b k. induction a as [|a0 a IH]; intros [|b0 b] [|k] H; simpl in *;
    try discriminate.
  - injection H as -> ->. split; reflexivity.
  - apply IH. exact H.
Qed.

Lemma combine_split_eq (l : list (A * A)) :
  combine (map fst l) (map snd l) = l.
Proof.
  induction l as [|[a b] l IH]; simpl; [reflexivity | now rewrite IH].
Qed.

Lemma coords_fst_snd (xs ys : list A) :
  map fst (coords xs ys) = flat_map (fun _ => xs) ys /\
  map snd (coords xs ys) = flat_map (fun y => map (fun _ => y) xs) ys.
Proof.
  unfold coords. induction ys as [|y ys [IH1 IH2]]; simpl; [split; reflexivity|].
  rewrite !map_app, IH1, IH2, !map_map. simpl.
  rewrite map_id. split; reflexivity.
Qed.

End Mesh.

(** ** Facts on the renderer, at every arithmetic *)

Section RendererFacts.

Context {num : Type} {SC : Scalar num} {label E : Type}.

Local Open Scope num_scope.

Local Abbreviation event := (event num label).
Local Abbreviation classifier := (classifier (num:=num) (E:=E)).
Local Abbreviation backend := (backend (num:=num) (label:=label) (E:=E)).

Lemma meshgrid_zip (xs ys : list num) :
  combine (ravel (fst (meshgrid xs ys))) (ravel (snd (meshgrid xs ys)))
  = coords xs ys.
Proof.
  simpl. destruct (coords_fst_snd xs ys) as [H1 H2].
  rewrite <- H1, <- H2. apply combine_split_eq.
Qed.

Lemma padded_bounds_nonempty (X : list (num * num)) :
  X <> [] -> exists b, padded_bounds X = inr b.
Proof.
  destruct X as [|p X]; [congruence|]. intros _.
  unfold padded_bounds. simpl. eexists. reflexivity.
Qed.

Lemma make_grid_inv (X : list (num * num)) (xx yy : ndarray num) :
  make_grid X = inr (xx, yy) ->
  exists x_min x_max y_min y_max xs ys,
    padded_bounds X = inr (x_min, x_max, y_min, y_max) /\
    arange x_min x_max res = inr xs /\
    arange y_min y_max res = inr ys /\
    (xx, yy) = meshgrid xs ys.
Proof.
  unfold make_grid. destruct (padded_bounds X) as [e|[[[a b] c] d]]; [discriminate|].
  destruct (arange a b res) as [e|xs] eqn:Hx; [discriminate|].
  destruct (arange c d res) as [e|ys] eqn:Hy; [discriminate|].
  intros H. injection H as <- <-. exists a, b, c, d, xs, ys.
  repeat split; assumption || reflexivity.
Qed.

Lemma make_grid_zip (X : list (num * num)) (xx yy : ndarray num) :
  make_grid X = inr (xx, yy) ->
  length (combine (ravel xx) (ravel yy)) = (fst (shape xx) * snd (shape xx))%nat /\
  shape yy = shape xx /\
  length (ravel xx) = (fst (shape xx) * snd (shape xx))%nat /\
  length (ravel yy) = (fst (shape xx) * snd (shape xx))%nat.
Proof.
  intros H. destruct (make_grid_inv _ _ _ H) as (a & b & c & d & xs & ys & _ & _ & _ & Hm).
  pose proof (meshgrid_zip xs ys) as Hz. rewrite <- Hm in Hz. simpl in Hz.
  rewrite Hz, length_coords.
  unfold meshgrid in Hm. injection Hm as -> ->. simpl.
  destruct (coords_fst_snd xs ys) as [H1 H2].
  rewrite <- H1, <- H2, !length_map, length_coords. auto.
Qed.

(** *** The loop *)

Lemma classify_loop_scored (f : classifier) (pts : list (num * num)) (rs : list num) :
  Forall2 (scored f) pts rs ->
  forall (Z_ : list Z) (tr : list event),
    classify_loop f pts Z_ tr
    = (tr ++ map call_at pts, inr (Z_ ++ map threshold rs)).
Proof.
  induction 1 as [|p r pts rs Hp _ IH]; intros Z_ tr; simpl.
  - unfold ret. now rewrite !app_nil_r.
  - destruct p as [x_i y_i]. unfold bind, call.
    unfold scored in Hp. simpl in Hp. rewrite Hp.
    rewrite IH, <- !app_assoc. reflexivity.
Qed.

Lemma classify_loop_raises (f : classifier) (pre : list (num * num)) (rs : list num)
    (p : num * num) (post : list (num * num)) (e : E) :
  Forall2 (scored f) pre rs ->
  f [fst p; snd p] = inl e ->
  forall (Z_ : list Z) (tr : list event),
    classify_loop f (pre ++ p :: post) Z_ tr
    = (tr ++ map call_at (pre ++ [p]), inl (Raised e)).
Proof.
  intros Hpre Hp. induction Hpre as [|q r pre rs Hq _ IH]; intros Z_ tr; simpl.
  - destruct p as [x_i y_i]. unfold bind, call. simpl in Hp. rewrite Hp. reflexivity.
  - destruct q as [x_i y_i]. unfold bind, call.
    unfold scored in Hq. simpl in Hq. rewrite Hq.
    rewrite IH, <- app_assoc. reflexivity.
Qed.

(** Over any list of pairs [f] either returns everywhere or has a
    first pair at which it raises. *)
Lemma scored_or_raises (f : classifier) (pts : list (num * num)) :
  (exists rs, Forall2 (scored f) pts rs) \/
  (exists pre rs p post e,
      pts = pre ++ p :: post /\ Forall2 (scored f) pre rs /\
      f [fst p; snd p] = inl e).
Proof.
  induction pts as [|p pts IH].
  - left. exists []. constructor.
  - destruct (f [fst p; snd p]) as [e|r] eqn:Hp.
    + right. exists [], [], p, pts, e. repeat split; auto.
    + destruct IH as [[rs Hrs]|(pre & rs & q & post & e & -> & Hpre & Hq)].
      * left. exists (r :: rs). constructor; assumption.
      * right. exists (p :: pre), (r :: rs), q, post, e.
        repeat split; auto.
Qed.

Lemma total_scored (f : classifier) (pts : list (num * num)) :
  (forall p, In p pts -> exists r, f [fst p; snd p] = inr r) ->
  exists rs, Forall2 (scored f) pts rs.
Proof.
  induction pts as [|p pts IH]; intros H.
  - exists []. constructor.
  - destruct (H p (or_introl eq_refl)) as [r Hr].
    destruct IH as [rs Hrs]; [intros q Hq; apply H; now right|].
    exists (r :: rs). constructor; assumption.
Qed.

(** *** The whole call *)

Lemma run_no_grid (plt : backend) (f : classifier) (X : list (num * num))
    (Y : list label) (e : np_error) :
  make_grid X = inl e -> run plt f X Y = ([], inl (NumPy e)).
Proof.
  intros H. unfold run, plot_decision_boundary, bind, lift. rewrite H. reflexivity.
Qed.

Lemma run_raises (plt : backend) (f : classifier) (X : list (num * num))
    (Y : list label) (xx yy : ndarray num) pre rs p post (e : E) :
  make_grid X = inr (xx, yy) ->
  combine (ravel xx) (ravel yy) = pre ++ p :: post ->
  Forall2 (scored f) pre rs ->
  f [fst p; snd p] = inl e ->
  run plt f X Y = (map call_at (pre ++ [p]), inl (Raised e)).
Proof.
  intros Hg Hz Hpre Hp.
  unfold run, plot_decision_boundary, bind, lift. rewrite Hg, Hz.
  rewrite (classify_loop_raises f pre rs p post e Hpre Hp). reflexivity.
Qed.

Lemma run_scored (plt : backend) (f : classifier) (X : list (num * num))
    (Y : list label) (xx yy : ndarray num) (rs : list num) :
  make_grid X = inr (xx, yy) ->
  Forall2 (scored f) (combine (ravel xx) (ravel yy)) rs ->
  run plt f X Y
  = drawing plt xx yy (mk_ndarray (shape xx) (map threshold rs)) X Y
      (map call_at (combine (ravel xx) (ravel yy))).
Proof.
  intros Hg Hrs.
  unfold run, plot_decision_boundary, bind, lift. rewrite Hg.
  rewrite (classify_loop_scored f _ rs Hrs). simpl.
  unfold reshape. rewrite length_map, <- (Forall2_length Hrs).
  destruct (make_grid_zip _ _ _ Hg) as [Hl _]. rewrite Hl, Nat.eqb_refl.
  unfold drawing, draw.
  destruct (plt (Figure (8, 6)%Z)); [reflexivity|].
  destruct (plt (Contourf _ _ _ _)); [now rewrite <- app_assoc|].
  destruct (plt (Scatter _ _ _ _ _)); now rewrite <- !app_assoc.
Qed.

Lemma is_call_calls (pts : list (num * num)) :
  filter is_call (map (call_at (label:=label)) pts) = map call_at pts.
Proof. induction pts as [|p pts IH]; simpl; [reflexivity | now rewrite IH]. Qed.

Lemma in_calls (pts : list (num * num)) (ev : event) :
  In ev (map call_at pts) -> exists p, In p pts /\ ev = Call [fst p; snd p].
Proof.
  intros H. apply in_map_iff in H. destruct H as (p & <- & Hp). now exists p.
Qed.

Lemma drawing_calls (plt : backend) xx yy Z_ X Y (tr : list event) :
  filter is_call (fst (drawing plt xx yy Z_ X Y tr)) = filter is_call tr.
Proof.
  unfold drawing. destruct (plt (Figure _)); [|destruct (plt (Contourf _ _ _ _))];
    simpl; rewrite filter_app; simpl; apply app_nil_r.
Qed.

Lemma drawing_contourf (plt : backend) xx yy Z_ X Y (tr : list event) xx' yy' Z' cm :
  In (Contourf xx' yy' Z' cm) (fst (drawing plt xx yy Z_ X Y tr)) ->
  In (Contourf xx' yy' Z' cm) tr \/
  (xx' = xx /\ yy' = yy /\ Z' = Z_ /\ cm = Spectral).
Proof.
  unfold drawing. destruct (plt (Figure _)); [|destruct (plt (Contourf _ _ _ _))];
    simpl; intros H; apply in_app_or in H; destruct H as [H|H]; auto;
    simpl in H; repeat (destruct H as [H|H]; try discriminate; try contradiction);
    injection H as <- <- <- <-; right; auto.
Qed.

(** A contour drawn by a call shows the grid of that call and the
    labels of the scores [f] returned over it. *)
Lemma contourf_in_run (plt : backend) (f : classifier) (X : list (num * num))
    (Y : list label) xx yy Z_ cm :
  In (Contourf xx yy Z_ cm) (fst (run plt f X Y)) ->
  make_grid X = inr (xx, yy) /\ cm = Spectral /\
  exists rs, Forall2 (scored f) (combine (ravel xx) (ravel yy)) rs /\
             Z_ = mk_ndarray (shape xx) (map threshold rs).
Proof.
  intros Hin. destruct (make_grid X) as [e|[xx0 yy0]] eqn:Hg.
  - rewrite (run_no_grid plt f X Y e Hg) in Hin. contradiction.
  - destruct (scored_or_raises f (combine (ravel xx0) (ravel yy0)))
      as [[rs Hrs]|(pre & rs & p & post & e & Hz & Hpre & Hp)].
    + rewrite (run_scored plt f X Y xx0 yy0 rs Hg Hrs) in Hin.
      apply drawing_contourf in Hin. destruct Hin as [Hin|(-> & -> & -> & ->)].
      * apply in_calls in Hin. destruct Hin as (q & _ & Hq). discriminate.
      * repeat split; auto. now exists rs.
    + rewrite (run_raises plt f X Y xx0 yy0 pre rs p post e Hg Hz Hpre Hp) in Hin.
      apply in_calls in Hin. destruct Hin as (q & _ & Hq). discriminate.
Qed.

Lemma get_inv {A : Type} (a : ndarray A) (i j : nat) (v : A) :
  get a i j = Some v ->
  (i < fst (shape a))%nat /\ (j < snd (shape a))%nat /\
  nth_error (ravel a) (i * snd (shape a) + j) = Some v.
Proof.
  unfold get. destruct (i <? fst (shape a))%nat eqn:Hi; [|discriminate].
  destruct (j <? snd (shape a))%nat eqn:Hj; [|discriminate]. simpl.
  apply Nat.ltb_lt in Hi, Hj. auto.
Qed.

Lemma get_intro {A : Type} (a : ndarray A) (i j : nat) :
  (i < fst (shape a))%nat -> (j < snd (shape a))%nat ->
  get a i j = nth_error (ravel a) (i * snd (shape a) + j).
Proof.
  intros Hi Hj. unfold get.
  apply Nat.ltb_lt in Hi, Hj. now rewrite Hi, Hj.
Qed.

Lemma nth_error_combine_intro {A : Type} (a b : list A) (k : nat) (x y : A) :
  nth_error a k = Some x -> nth_error b k = Some y ->
  nth_error (combine a b) k = Some (x, y).
Proof.
  revert b k. induction a as [|a0 a IH]; intros [|b0 b] [|k] Hx Hy; simpl in *;
    try discriminate.
  - injection Hx as ->. injection Hy as ->. reflexivity.
  - now apply IH.
Qed.

Lemma Forall2_nth_error_r {A B : Type} (R : A -> B -> Prop) (l : list A) (l' : list B)
    (k : nat) (b : B) :
  Forall2 R l l' -> nth_error l' k = Some b ->
  exists a, nth_error l k = Some a /\ R a b.
Proof.
  intros H. revert k. induction H as [|a0 b0 l l' H0 _ IH]; intros [|k] Hk; simpl in *;
    try discriminate.
  - injection Hk as ->. now exists a0.
  - now apply IH.
Qed.

End RendererFacts.

(** ** The samples of an axis and the calls of the classifier *)

Lemma arange_inv {num : Type} {SC : Scalar num} (start stop step : num) (xs : list num) :
  arange start stop step = inr xs ->
  exists len,
    ceil_intp (num_div (num_sub stop start) step) = Some len /\
    (len <= intp_max)%Z /\
    xs = map (arange_item start step) (seq 0 (Z.to_nat len)).
Proof.
  unfold arange. destruct (ceil_intp _) as [len|]; [|discriminate].
  destruct (intp_max <? len)%Z eqn:Hl; [discriminate|].
  intros H. injection H as <-. exists len. apply Z.ltb_ge in Hl. auto.
Qed.

Lemma arange_nth {num : Type} {SC : Scalar num} (start stop step : num) (xs : list num)
    (j : nat) (x : num) :
  arange start stop step = inr xs -> nth_error xs j = Some x ->
  x = arange_item start step j.
Proof.
  intros H Hj. destruct (arange_inv _ _ _ _ H) as (len & _ & _ & ->).
  rewrite nth_error_map in Hj.
  destruct (nth_error (seq 0 (Z.to_nat len)) j) as [k|] eqn:Hk; [|discriminate].
  injection Hj as <-.
  assert (Hlt : (j < length (seq 0 (Z.to_nat len)))%nat)
    by (apply nth_error_Some; congruence).
  rewrite length_seq in Hlt.
  rewrite (nth_error_nth' _ 0%nat) in Hk by (rewrite length_seq; exact Hlt).
  rewrite seq_nth in Hk by exact Hlt. injection Hk as <-. reflexivity.
Qed.


Lemma call_in_run {num : Type} {SC : Scalar num} {label E : Type}
    (plt : backend (label:=label) (E:=E)) (f : classifier)
    (X : list (num * num)) (Y : list label) (v : list num) :
  In (Call v) (fst (run plt f X Y)) ->
  exists xx yy p,
    make_grid X = inr (xx, yy) /\ In p (combine (ravel xx) (ravel yy)) /\
    v = [fst p; snd p].
Proof.
  intros Hin. destruct (make_grid X) as [e|[xx yy]] eqn:Hg.
  { rewrite (run_no_grid plt f X Y e Hg) in Hin. contradiction. }
  exists xx, yy.
  destruct (scored_or_raises f (combine (ravel xx) (ravel yy)))
    as [[rs Hrs]|(pre & rs & p & post & e & Hz & Hpre & Hp)].
  - rewrite (run_scored plt f X Y xx yy rs Hg Hrs) in Hin.
    assert (Hc : In (Call v) (filter is_call
                   (fst (drawing plt xx yy (mk_ndarray (shape xx) (map threshold rs)) X Y
                           (map call_at (combine (ravel xx) (ravel yy))))))).
    { apply filter_In. split; [exact Hin | reflexivity]. }
    rewrite drawing_calls, is_call_calls in Hc.
    apply in_calls in Hc. destruct Hc as (q & Hq & Hv). injection Hv as ->.
    now exists q.
  - rewrite (run_raises plt f X Y xx yy pre rs p post e Hg Hz Hpre Hp) in Hin.
    apply in_calls in Hin. destruct Hin as (q & Hq & Hv). injection Hv as ->.
    exists q. repeat split; auto. rewrite Hz.
    apply in_app_or in Hq. apply in_or_app.
    destruct Hq as [Hq|[<-|[]]]; [left|right; left]; auto.
Qed.

(** ** The padded bounds in binary64 *)

Module F64Facts.

Lemma SFeqb_zero (x : spec_float) :
  SFeqb x (S754_zero false) = true -> exists s, x = S754_zero s.
Proof.
  destruct x as [s|s| |s m e]; unfold SFeqb; simpl; try discriminate.
  - intros _. now exists s.
  - destruct s; discriminate.
  - destruct s; discriminate.
Qed.

Lemma SFeqb_refl (x : spec_float) :
  x <> S754_nan -> (forall s, x <> S754_infinity s) -> SFeqb x x = true.
Proof.
  destruct x as [s|s| |s m e]; intros Hn Hi; unfold SFeqb; simpl.
  - reflexivity.
  - now destruct (Hi s).
  - now destruct Hn.
  - rewrite Z.compare_refl.
    assert (H : Pos.compare_cont Eq m m = Eq) by apply Pos.compare_refl.
    unfold Pos.compare in H. destruct s; simpl; now rewrite ?H.
Qed.

(** A difference that is zero has operands that are zero or finite. *)
Lemma SFsub_zero_inv (x y : spec_float) (s : bool) :
  SF64sub x y = S754_zero s ->
  (exists sx sy, x = S754_zero sx /\ y = S754_zero sy) \/
  (exists sx mx ex sy my ey, x = S754_finite sx mx ex /\ y = S754_finite sy my ey).
Proof.
  unfold SF64sub, SFsub.
  destruct x as [sx|sx| |sx mx ex]; destruct y as [sy|sy| |sy my ey];
    try discriminate.
  - intros _. left. now exists sx, sy.
  - destruct sx, sy; discriminate.
  - intros _. right. now exists sx, mx, ex, sy, my, ey.
Qed.

Lemma lit_padding : Prim2SF (lit 0.15) = S754_finite false 5404319552844595 (-55).
Proof. reflexivity. Qed.

(** On an axis whose range compares equal to zero the padding is a
    zero, and taking it from the minimum or adding it to the maximum
    leaves a value that compares equal to the bound. *)
Lemma zero_range_keeps_bounds_f64 (m M : float) :
  PrimFloat.eqb (M - m) 0 = true ->
  PrimFloat.eqb (m - (M - m) * lit 0.15) m = true /\
  PrimFloat.eqb (M + (M - m) * lit 0.15) M = true.
Proof.
  intros H. rewrite FloatAxioms.eqb_spec in H.
  change (Prim2SF 0) with (S754_zero false) in H.
  apply SFeqb_zero in H. destruct H as [s Hr].
  assert (Hp : Prim2SF ((M - m) * lit 0.15) = S754_zero (xorb s false)).
  { rewrite FloatAxioms.mul_spec, Hr, lit_padding. reflexivity. }
  rewrite FloatAxioms.sub_spec in Hr.
  rewrite !FloatAxioms.eqb_spec, FloatAxioms.sub_spec, FloatAxioms.add_spec, Hp.
  apply SFsub_zero_inv in Hr.
  destruct Hr as [(sx & sy & HM & Hm)|(sx & mx & ex & sy & my & ey & HM & Hm)];
    rewrite HM, Hm.
  - split.
    + unfold SF64sub, SFsub. destruct sy, (xorb s false); reflexivity.
    + unfold SF64add, SFadd. destruct sx, (xorb s false); reflexivity.
  - split.
    + unfold SF64sub, SFsub. apply SFeqb_refl; [discriminate | intros; discriminate].
    + unfold SF64add, SFadd. apply SFeqb_refl; [discriminate | intros; discriminate].
Qed.

End F64Facts.

(** ** The padded bounds and the samples in exact arithmetic *)

Module QFacts.

Local Open Scope Q_scope.

Lemma padding_widens (m M : Q) :
  m < M -> m - (M - m) * 0.15 < m /\ M < M + (M - m) * 0.15.
Proof. intros H. split; lra. Qed.

Lemma zero_range_keeps_bounds_exact (m M : Q) :
  M - m == 0 -> m - (M - m) * 0.15 == m /\ M + (M - m) * 0.15 == M.
Proof. intros H. split; lra. Qed.

Lemma arange_item_exact (start step : Q) (j : nat) :
  arange_item start step j == start + inject_Z (Z.of_nat j) * step.
Proof.
  destruct j as [|[|j]];
    cbv [arange_item num_add num_sub num_mul of_intp Q_Scalar].
  - change (inject_Z (Z.of_nat 0)) with 0. ring.
  - change (inject_Z (Z.of_nat 1)) with 1. ring.
  - ring.
Qed.

(** The samples of an axis: as many as the ceiling of the extent over
    the step, each below the stop, the stop at most one step past the
    last. *)
Lemma arange_exact (start stop step : Q) (xs : list Q) :
  0 < step ->
  arange start stop step = inr xs ->
  Z.of_nat (length xs) = Z.max 0 (Qceiling ((stop - start) / step)) /\
  (forall j x, nth_error xs j = Some x ->
               x == start + inject_Z (Z.of_nat j) * step /\ start <= x /\ x < stop) /\
  stop <= start + inject_Z (Z.of_nat (length xs)) * step.
Proof.
  intros Hstep H.
  destruct (arange_inv _ _ _ _ H) as (len & Hlen & _ & Hxs).
  simpl in Hlen. injection Hlen as Hlen.
  assert (Hq : (stop - start) / step * step == stop - start).
  { field. intros Hz. rewrite Hz in Hstep. now apply Qlt_irrefl in Hstep. }
  assert (Hl : Z.of_nat (length xs) = Z.max 0 len).
  { rewrite Hxs, length_map, length_seq. lia. }
  split; [now rewrite Hl, Hlen|]. split.
  - intros j x Hj.
    pose proof (arange_nth _ _ _ _ _ _ H Hj) as ->.
    assert (Hjl : (j < length xs)%nat) by (apply nth_error_Some; congruence).
    pose proof (arange_item_exact start step j) as Hi.
    assert (H0 : 0 <= inject_Z (Z.of_nat j)).
    { change 0 with (inject_Z 0). rewrite <- Zle_Qle. lia. }
    assert (Hjq : inject_Z (Z.of_nat j) < (stop - start) / step).
    { apply Qle_lt_trans with (inject_Z (Qceiling ((stop - start) / step) - 1)).
      - rewrite <- Zle_Qle. lia.
      - apply Qceiling_lt. }
    assert (Hm : inject_Z (Z.of_nat j) * step < stop - start).
    { rewrite <- Hq. apply Qmult_lt_r; assumption. }
    assert (Hp : 0 <= inject_Z (Z.of_nat j) * step).
    { apply Qmult_le_0_compat; [assumption | now apply Qlt_le_weak]. }
    split; [exact Hi|]. rewrite Hi. split; lra.
  - assert (Hc : (stop - start) / step <= inject_Z (Z.of_nat (length xs))).
    { apply Qle_trans with (inject_Z (Qceiling ((stop - start) / step))).
      - apply Qle_ceiling.
      - rewrite <- Zle_Qle. lia. }
    assert (Hm : (stop - start) / step * step
                 <= inject_Z (Z.of_nat (length xs)) * step).
    { apply Qmult_le_compat_r; [exact Hc | now apply Qlt_le_weak]. }
    rewrite Hq in Hm. lra.
Qed.

End QFacts.

(** ** The bounds and the grid *)

(** C2 as the code has it.  For a non-empty dataset the padded bounds are,
    on each axis on its own, the smallest value less the range times
    0.15 and the largest value plus the range times 0.15.  In binary64 an
    axis whose range compares equal to zero keeps its bounds.  In exact
    arithmetic an axis of positive range is widened strictly on both
    sides and an axis of zero range keeps its bounds. *)
Theorem padded_bounds_widen :
  (forall (num : Type) (SC : Scalar num) (X : list (num * num)),
      X <> [] ->
      exists x_min x_max y_min y_max,
        raw_bounds X = inr (x_min, x_max, y_min, y_max) /\
        padded_bounds X
        = inr (x_min - (x_max - x_min) * lit 0.15, x_max + (x_max - x_min) * lit 0.15,
               y_min - (y_max - y_min) * lit 0.15, y_max + (y_max - y_min) * lit 0.15)%num) /\
  (forall (X : list (float * float)) x_min x_max y_min y_max a b c d,
      raw_bounds X = inr (x_min, x_max, y_min, y_max) ->
      padded_bounds X = inr (a, b, c, d) ->
      (PrimFloat.eqb (x_max - x_min) 0 = true ->
       PrimFloat.eqb a x_min = true /\ PrimFloat.eqb b x_max = true) /\
      (PrimFloat.eqb (y_max - y_min) 0 = true ->
       PrimFloat.eqb c y_min = true /\ PrimFloat.eqb d y_max = true)) /\
  (forall (X : list (Q * Q)) x_min x_max y_min y_max a b c d,
      raw_bounds X = inr (x_min, x_max, y_min, y_max) ->
      padded_bounds X = inr (a, b, c, d) ->
      (x_min < x_max -> a < x_min /\ x_max < b) /\
      (x_max - x_min == 0 -> a == x_min /\ b == x_max) /\
      (y_min < y_max -> c < y_min /\ y_max < d) /\
      (y_max - y_min == 0 -> c == y_min /\ d == y_max))%Q.
Proof.
  split; [|split].
  - intros num SC X HX. destruct X as [|p X]; [congruence|].
    unfold padded_bounds, raw_bounds. simpl. do 4 eexists. split; reflexivity.
  - intros X x_min x_max y_min y_max a b c d Hr Hp.
    unfold padded_bounds in Hp. rewrite Hr in Hp. injection Hp as <- <- <- <-.
    split; intros H; apply (F64Facts.zero_range_keeps_bounds_f64 _ _ H).
  - intros X x_min x_max y_min y_max a b c d Hr Hp.
    unfold padded_bounds in Hp. rewrite Hr in Hp. injection Hp as <- <- <- <-.
    cbv [padding lit num_add num_sub num_mul Q_Scalar].
    split; [exact (QFacts.padding_widens _ _)|].
    split; [exact (QFacts.zero_range_keeps_bounds_exact _ _)|].
    split; [exact (QFacts.padding_widens _ _)|].
    exact (QFacts.zero_range_keeps_bounds_exact _ _).
Qed.

(** C3 as the code has it.  For a dataset with points the bounds are
    defined and the grid can only fail to be built when [np.arange]
    cannot size an axis.  When both axes are sampled, the grid is the
    mesh of [arange(x_min, x_max, 0.01)] and [arange(y_min, y_max, 0.01)]
    over the padded bounds: both coordinate arrays have one row per
    sample of the second axis and one column per sample of the first; in
    C order the second axis is the outer one and the first the inner
    one; entry [(i, j)] holds item [j] of the first axis and item [i] of
    the second, an item being what [np.arange] generates from the padded
    minimum with step 0.01; and an axis has as many samples as the
    ceiling of its padded extent over 0.01.  In exact arithmetic the
    samples of an axis are the padded minimum plus 0, 1, 2, ... times
    0.01, all of them below the padded maximum, which is at most one
    step past the last. *)
Theorem grid_is_mesh :
  (forall (num : Type) (SC : Scalar num) (X : list (num * num))
          (x_min x_max y_min y_max : num) (xs ys : list num),
      padded_bounds X = inr (x_min, x_max, y_min, y_max) ->
      arange x_min x_max (lit 0.01) = inr xs ->
      arange y_min y_max (lit 0.01) = inr ys ->
      exists xx yy,
        make_grid X = inr (xx, yy) /\
        shape xx = (length ys, length xs) /\
        shape yy = (length ys, length xs) /\
        combine (ravel xx) (ravel yy) = coords xs ys /\
        (forall i j, (i < length ys)%nat -> (j < length xs)%nat ->
                     get xx i j = Some (arange_item x_min (lit 0.01) j) /\
                     get yy i j = Some (arange_item y_min (lit 0.01) i)) /\
        (exists len, ceil_intp (num_div (num_sub x_max x_min) (lit 0.01)) = Some len /\
                     length xs = Z.to_nat len) /\
        (exists len, ceil_intp (num_div (num_sub y_max y_min) (lit 0.01)) = Some len /\
                     length ys = Z.to_nat len)) /\
  (forall (num : Type) (SC : Scalar num) (X : list (num * num)),
      X <> [] ->
      (exists b, padded_bounds X = inr b) /\
      (forall e, make_grid X = inl e -> e = ArangeLength)) /\
  (forall (start stop : Q) (xs : list Q),
      arange start stop (lit 0.01) = inr xs ->
      (forall j x, nth_error xs j = Some x ->
                   x == start + inject_Z (Z.of_nat j) * 0.01 /\ start <= x /\ x < stop) /\
      stop <= start + inject_Z (Z.of_nat (length xs)) * 0.01)%Q.
Proof.
  split; [|split].
  - intros num SC X a b c d xs ys Hb Hx Hy.
    exists (fst (meshgrid xs ys)), (snd (meshgrid xs ys)).
    split; [unfold make_grid; rewrite Hb; unfold res; now rewrite Hx, Hy|].
    split; [reflexivity|]. split; [reflexivity|].
    split; [apply meshgrid_zip|]. split; [|split].
    + intros i j Hi Hj.
      destruct (nth_error xs j) as [x|] eqn:Ex; [|apply nth_error_None in Ex; lia].
      destruct (nth_error ys i) as [y|] eqn:Ey; [|apply nth_error_None in Ey; lia].
      pose proof (nth_error_coords xs ys i j x y Ex Ey) as Hc.
      rewrite <- (meshgrid_zip xs ys) in Hc.
      apply nth_error_combine in Hc. destruct Hc as [H1 H2].
      rewrite !get_intro by (simpl; assumption).
      change (snd (shape (fst (meshgrid xs ys)))) with (length xs).
      change (snd (shape (snd (meshgrid xs ys)))) with (length xs).
      rewrite H1, H2.
      rewrite (arange_nth _ _ _ _ _ _ Hx Ex), (arange_nth _ _ _ _ _ _ Hy Ey).
      split; reflexivity.
    + destruct (arange_inv _ _ _ _ Hx) as (len & Hl & _ & ->).
      exists len. split; [exact Hl|]. now rewrite length_map, length_seq.
    + destruct (arange_inv _ _ _ _ Hy) as (len & Hl & _ & ->).
      exists len. split; [exact Hl|]. now rewrite length_map, length_seq.
  - intros num SC X HX.
    destruct (padded_bounds_nonempty X HX) as [[[[a b] c] d] Hb].
    split; [now exists (a, b, c, d)|].
    intros e. unfold make_grid. rewrite Hb. unfold res.
    unfold arange.
    destruct (ceil_intp (num_div (num_sub b a) (lit 0.01))) as [l1|]; [|congruence].
    destruct (intp_max <? l1)%Z; [congruence|].
    destruct (ceil_intp (num_div (num_sub d c) (lit 0.01))) as [l2|]; [|congruence].
    destruct (intp_max <? l2)%Z; [congruence|discriminate].
  - intros start stop xs Hx.
    assert (Hstep : (0 < 0.01)%Q) by reflexivity.
    destruct (QFacts.arange_exact _ _ _ _ Hstep Hx) as (_ & Hxs & Hc).
    split; assumption.
Qed.

(** ** The classification of the grid *)

(** C1.  Every entry of the label grid handed to the contour drawing is
    0 or 1; it is the label of the score [f] returned at the coordinate
    of that entry, and it is 1 exactly when that score is strictly
    greater than 0.5.  A score equal to 0.5 is labelled 0. *)
Theorem label_grid_thresholds :
  (forall (num : Type) (SC : Scalar num) (label E : Type)
          (plt : backend (label:=label) (E:=E)) (f : classifier)
          (X : list (num * num)) (Y : list label)
          (xx yy : ndarray num) (Z_ : ndarray Z) (cm : cmap) (i j : nat) (v : Z),
      In (Contourf xx yy Z_ cm) (fst (run plt f X Y)) ->
      get Z_ i j = Some v ->
      exists x y r,
        get xx i j = Some x /\ get yy i j = Some y /\ f [x; y] = inr r /\
        (v = 0 \/ v = 1)%Z /\ (v = 1%Z <-> num_ltb (lit 0.5) r = true)) /\
  threshold (num:=float) 0.5%float = 0%Z /\
  threshold (num:=Q) 0.5%Q = 0%Z.
Proof.
  split; [|split; reflexivity].
  intros num SC label E plt f X Y xx yy Z_ cm i j v Hin Hv.
  apply contourf_in_run in Hin. destruct Hin as (Hg & _ & rs & Hrs & ->).
  apply get_inv in Hv. simpl in Hv. destruct Hv as (Hi & Hj & Hv).
  rewrite nth_error_map in Hv.
  destruct (nth_error rs (i * snd (shape xx) + j)) as [r|] eqn:Hr; [|discriminate].
  injection Hv as <-.
  destruct (Forall2_nth_error_r _ _ _ _ _ Hrs Hr) as ([x y] & Hp & Hs).
  apply nth_error_combine in Hp. destruct Hp as [Hx Hy].
  destruct (make_grid_zip _ _ _ Hg) as (_ & Hsh & _).
  exists x, y, r. repeat split.
  - now rewrite get_intro.
  - rewrite get_intro; rewrite Hsh; assumption.
  - exact Hs.
  - unfold threshold. destruct (num_ltb (lit 0.5) r); auto.
  - unfold threshold. destruct (num_ltb (lit 0.5) r); [reflexivity | discriminate].
  - unfold threshold. intros ->. reflexivity.
Qed.

(** C4.  When [f] returns at every coordinate of the grid, the calls of
    [f] recorded by one call of the renderer are as many as the grid has
    entries, and the call at position [i * columns + j] is the call on
    the two-element vector of the coordinate at row [i] and column [j]:
    one call per coordinate, in row-major order. *)
Theorem calls_row_major (num : Type) (SC : Scalar num) (label E : Type)
    (plt : backend (label:=label) (E:=E)) (f : classifier)
    (X : list (num * num)) (Y : list label) (xx yy : ndarray num) :
  make_grid X = inr (xx, yy) ->
  (forall p, In p (combine (ravel xx) (ravel yy)) ->
             exists r, f [fst p; snd p] = inr r) ->
  let calls := filter is_call (fst (run plt f X Y)) in
  calls = map call_at (combine (ravel xx) (ravel yy)) /\
  length calls = (fst (shape xx) * snd (shape xx))%nat /\
  forall i j x y,
    get xx i j = Some x -> get yy i j = Some y ->
    nth_error calls (i * snd (shape xx) + j) = Some (Call [x; y]).
Proof.
  intros Hg Htot calls. subst calls.
  destruct (total_scored f _ Htot) as [rs Hrs].
  rewrite (run_scored plt f X Y xx yy rs Hg Hrs), drawing_calls, is_call_calls.
  destruct (make_grid_zip _ _ _ Hg) as (Hl & Hsh & _).
  split; [reflexivity|]. split; [now rewrite length_map|].
  intros i j x y Hx Hy.
  apply get_inv in Hx, Hy. rewrite Hsh in Hy.
  destruct Hx as (_ & _ & Hx). destruct Hy as (_ & _ & Hy).
  rewrite nth_error_map, (nth_error_combine_intro _ _ _ _ _ Hx Hy). reflexivity.
Qed.

(** C8.  On a grid that was built, with [f] returning at every
    coordinate and the figure created, the contour drawing receives a
    label grid whose shape is the shape of the coordinate grids and
    which holds one label per entry; and no call ever hands the contour
    drawing a label grid of another shape. *)
Theorem label_grid_shape (num : Type) (SC : Scalar num) (label E : Type)
    (plt : backend (label:=label) (E:=E)) (f : classifier)
    (X : list (num * num)) (Y : list label) (xx yy : ndarray num) :
  make_grid X = inr (xx, yy) ->
  (forall p, In p (combine (ravel xx) (ravel yy)) ->
             exists r, f [fst p; snd p] = inr r) ->
  plt (Figure (8, 6)%Z) = None ->
  (exists Z_,
      In (Contourf xx yy Z_ Spectral) (fst (run plt f X Y)) /\
      shape Z_ = shape xx /\ shape Z_ = shape yy /\
      length (ravel Z_) = (fst (shape xx) * snd (shape xx))%nat) /\
  (forall xx' yy' Z' cm,
      In (Contourf xx' yy' Z' cm) (fst (run plt f X Y)) ->
      shape Z' = shape xx' /\ shape Z' = shape yy' /\
      length (ravel Z') = (fst (shape xx') * snd (shape xx'))%nat).
Proof.
  intros Hg Htot Hfig.
  assert (Hall : forall xx' yy' Z' cm,
             In (Contourf xx' yy' Z' cm) (fst (run plt f X Y)) ->
             shape Z' = shape xx' /\ shape Z' = shape yy' /\
             length (ravel Z') = (fst (shape xx') * snd (shape xx'))%nat).
  { intros xx' yy' Z' cm Hin. apply contourf_in_run in Hin.
    destruct Hin as (Hg' & _ & rs & Hrs & ->). simpl.
    destruct (make_grid_zip _ _ _ Hg') as (Hl & Hsh & _).
    rewrite length_map, <- (Forall2_length Hrs). auto. }
  split; [|exact Hall].
  destruct (total_scored f _ Htot) as [rs Hrs].
  exists (mk_ndarray (shape xx) (map threshold rs)).
  assert (Hin : In (Contourf xx yy (mk_ndarray (shape xx) (map threshold rs)) Spectral)
                   (fst (run plt f X Y))).
  { rewrite (run_scored plt f X Y xx yy rs Hg Hrs). unfold drawing. rewrite Hfig.
    destruct (plt (Contourf _ _ _ _)); simpl; apply in_or_app; right; simpl; auto. }
  split; [exact Hin|]. exact (Hall _ _ _ _ Hin).
Qed.


(** ** The labels *)

(** C9.  Two calls that differ only in the labels leave the same trace
    once the scatter command is set aside: the same calls of [f] on the
    same coordinates and the same contour drawing of the same grids and
    label grid.  The labels occur in the trace only as the colours of
    the scatter command. *)
Theorem label_grid_ignores_labels (num : Type) (SC : Scalar num) (label E : Type)
    (plt : backend (label:=label) (E:=E)) (f : classifier)
    (X : list (num * num)) (Y Y' : list label) :
  filter (fun ev => negb (is_scatter ev)) (fst (run plt f X Y))
  = filter (fun ev => negb (is_scatter ev)) (fst (run plt f X Y')) /\
  (forall ev, is_scatter ev = false ->
              In ev (fst (run plt f X Y)) -> In ev (fst (run plt f X Y'))) /\
  (forall ev, In ev (fst (run plt f X Y)) -> is_scatter ev = true ->
              ev = Scatter (col0 X) (col1 X) 35%Z Y Spectral).
Proof.
  assert (Hf : filter (fun ev => negb (is_scatter ev)) (fst (run plt f X Y))
               = filter (fun ev => negb (is_scatter ev)) (fst (run plt f X Y'))).
  { destruct (make_grid X) as [e|[xx0 yy0]] eqn:Hg.
    { now rewrite !(run_no_grid plt f X _ e Hg). }
    destruct (scored_or_raises f (combine (ravel xx0) (ravel yy0)))
      as [[rs Hrs]|(pre & rs & p & post & e & Hz & Hpre & Hp)].
    - rewrite !(run_scored plt f X _ xx0 yy0 rs Hg Hrs). unfold drawing.
      destruct (plt (Figure _)); [reflexivity|].
      destruct (plt (Contourf _ _ _ _)); [reflexivity|].
      simpl. rewrite !filter_app. reflexivity.
    - now rewrite !(run_raises plt f X _ xx0 yy0 pre rs p post e Hg Hz Hpre Hp). }
  split; [exact Hf|]. split.
  - intros ev Hs Hin.
    assert (H : In ev (filter (fun ev => negb (is_scatter ev)) (fst (run plt f X Y)))).
    { apply filter_In. split; [exact Hin | now rewrite Hs]. }
    rewrite Hf in H. apply filter_In in H. tauto.
  - destruct (make_grid X) as [e|[xx0 yy0]] eqn:Hg.
    { rewrite (run_no_grid plt f X _ e Hg). simpl. contradiction. }
    destruct (scored_or_raises f (combine (ravel xx0) (ravel yy0)))
      as [[rs Hrs]|(pre & rs & p & post & e & Hz & Hpre & Hp)].
    + rewrite (run_scored plt f X _ xx0 yy0 rs Hg Hrs). unfold drawing.
      intros ev Hev Hs.
      destruct (plt (Figure _)); [|destruct (plt (Contourf _ _ _ _))];
        simpl in Hev; apply in_app_or in Hev; destruct Hev as [Hev|Hev];
        try (apply in_calls in Hev; destruct Hev as (q & _ & ->); discriminate);
        simpl in Hev;
        repeat (destruct Hev as [Hev|Hev]; try contradiction;
                try (subst ev; discriminate)); auto.
    + rewrite (run_raises plt f X _ xx0 yy0 pre rs p post e Hg Hz Hpre Hp). simpl.
      intros ev Hev Hs. apply in_calls in Hev. destruct Hev as (q & _ & ->). discriminate.
Qed.

(** C6 as the code has it.  The function never compares the lengths of
    the labels and of the points.  Whatever the labels are, the call does
    the same work up to the scatter command, which mentions no label;
    when that work ends in an exception, the call ends in it, and
    otherwise the labels are handed unchanged to the scatter command of
    the backend, on which alone the outcome then depends. *)
Theorem labels_length_unchecked (num : Type) (SC : Scalar num) (label E : Type)
    (plt : backend (label:=label) (E:=E)) (f : classifier)
    (X : list (num * num)) :
  exists (tr : list (event num label)) (r : exn E + unit),
    (forall ev, In ev tr -> is_scatter ev = false) /\
    forall Y : list label,
      run plt f X Y =
      match r with
      | inl e => (tr, inl e)
      | inr _ => draw plt (Scatter (col0 X) (col1 X) 35%Z Y Spectral) tr
      end.
Proof.
  destruct (make_grid X) as [e|[xx yy]] eqn:Hg.
  { exists [], (inl (NumPy e)). split; [contradiction|].
    intros Y. apply run_no_grid. exact Hg. }
  destruct (scored_or_raises f (combine (ravel xx) (ravel yy)))
    as [[rs Hrs]|(pre & rs & p & post & e & Hz & Hpre & Hp)].
  - pose (calls := map (call_at (label:=label)) (combine (ravel xx) (ravel yy))).
    pose (Z_ := mk_ndarray (shape xx) (map threshold rs)).
    assert (Hcalls : forall ev, In ev calls -> is_scatter ev = false).
    { intros ev Hev. apply in_calls in Hev. now destruct Hev as (q & _ & ->). }
    destruct (plt (Figure (8, 6)%Z)) as [e|] eqn:Hfig.
    { exists (calls ++ [Figure (8, 6)%Z]), (inl (Raised e)). split.
      - intros ev Hev. apply in_app_or in Hev. destruct Hev as [Hev|[<-|[]]]; auto.
      - intros Y. rewrite (run_scored plt f X Y xx yy rs Hg Hrs).
        unfold drawing. now rewrite Hfig. }
    destruct (plt (Contourf xx yy Z_ Spectral)) as [e|] eqn:Hc.
    { exists (calls ++ [Figure (8, 6)%Z; Contourf xx yy Z_ Spectral]), (inl (Raised e)).
      split.
      - intros ev Hev. apply in_app_or in Hev.
        destruct Hev as [Hev|[<-|[<-|[]]]]; auto.
      - intros Y. rewrite (run_scored plt f X Y xx yy rs Hg Hrs).
        unfold drawing. fold Z_. now rewrite Hfig, Hc. }
    exists (calls ++ [Figure (8, 6)%Z; Contourf xx yy Z_ Spectral]), (inr tt). split.
    + intros ev Hev. apply in_app_or in Hev.
      destruct Hev as [Hev|[<-|[<-|[]]]]; auto.
    + intros Y. rewrite (run_scored plt f X Y xx yy rs Hg Hrs).
      unfold drawing, draw. fold Z_. rewrite Hfig, Hc.
      destruct (plt (Scatter _ _ _ _ _)); now rewrite <- app_assoc.
  - exists (map call_at (pre ++ [p])), (inl (Raised e)). split.
    + intros ev Hev. apply in_calls in Hev. now destruct Hev as (q & _ & ->).
    + intros Y. exact (run_raises plt f X Y xx yy pre rs p post e Hg Hz Hpre Hp).
Qed.

(** ** Failures *)

(** C5.  On an empty sequence of points the reduction of the first
    statement raises: the call ends in that exception with nothing in
    its trace, no grid built and no drawing command issued. *)
Theorem empty_points_fail_first (num : Type) (SC : Scalar num) (label E : Type)
    (plt : backend (label:=label) (E:=E)) (f : classifier) (Y : list label) :
  run plt f (@nil (num * num)) Y = ([], inl (NumPy ZeroSizeReduction)) /\
  padded_bounds (@nil (num * num)) = inl ZeroSizeReduction /\
  make_grid (@nil (num * num)) = inl ZeroSizeReduction.
Proof. repeat split; reflexivity. Qed.

(** C7.  If [f] raises at a coordinate of the grid, the call ends in the
    exception [f] raised at the first such coordinate, unchanged; [f] is
    called on the coordinates up to that one and on no other, and the
    trace holds no drawing command. *)
Theorem classifier_error_propagates (num : Type) (SC : Scalar num) (label E : Type)
    (plt : backend (label:=label) (E:=E)) (f : classifier)
    (X : list (num * num)) (Y : list label) (xx yy : ndarray num)
    (p : num * num) (e : E) :
  make_grid X = inr (xx, yy) ->
  In p (combine (ravel xx) (ravel yy)) ->
  f [fst p; snd p] = inl e ->
  exists pre q post e',
    combine (ravel xx) (ravel yy) = pre ++ q :: post /\
    (forall q', In q' pre -> exists r, f [fst q'; snd q'] = inr r) /\
    f [fst q; snd q] = inl e' /\
    run plt f X Y = (map call_at (pre ++ [q]), inl (Raised e')) /\
    (forall ev, In ev (fst (run plt f X Y)) -> is_call ev = true).
Proof.
  intros Hg Hin Hp.
  destruct (scored_or_raises f (combine (ravel xx) (ravel yy)))
    as [[rs Hrs]|(pre & rs & q & post & e' & Hz & Hpre & Hq)].
  - exfalso. apply In_nth_error in Hin. destruct Hin as [k Hk].
    assert (Hlen : (k < length rs)%nat).
    { rewrite <- (Forall2_length Hrs). apply nth_error_Some. congruence. }
    destruct (nth_error rs k) as [r|] eqn:Hr; [|apply nth_error_None in Hr; lia].
    destruct (Forall2_nth_error_r _ _ _ _ _ Hrs Hr) as (p' & Hp' & Hs).
    unfold scored in Hs. congruence.
  - exists pre, q, post, e'.
    pose proof (run_raises plt f X Y xx yy pre rs q post e' Hg Hz Hpre Hq) as Hrun.
    repeat split; auto.
    + intros q' Hq'. apply In_nth_error in Hq'. destruct Hq' as [k Hk].
      clear - Hpre Hk. revert k Hk.
      induction Hpre as [|a r l l' Ha _ IH]; intros [|k] Hk; simpl in *; try discriminate.
      * injection Hk as <-. now exists r.
      * now apply (IH k).
    + rewrite Hrun. simpl. intros ev Hev. apply in_calls in Hev.
      destruct Hev as (q' & _ & ->). reflexivity.
Qed.

(** ** The theorems at concrete inputs *)

Import Inputs.

Lemma grid_two : make_grid X_two = inr (xx_two, yy_two).
Proof. vm_compute. reflexivity. Qed.

Lemma by_x_total (p : float * float) :
  In p (combine (ravel xx_two) (ravel yy_two)) ->
  exists r, by_x [fst p; snd p] = inr r.
Proof. intros _. eexists. reflexivity. Qed.

Lemma label_grid_thresholds_witness :
  exists x y r,
    get xx_two 0 1 = Some x /\ get yy_two 0 1 = Some y /\ by_x [x; y] = inr r /\
    (1 = 0 \/ 1 = 1)%Z /\ (1%Z = 1%Z <-> num_ltb (lit 0.5) r = true).
Proof.
  apply (proj1 label_grid_thresholds float _ Z nat accept by_x X_two Y_two
           xx_two yy_two Z_two Spectral 0%nat 1%nat 1%Z).
  - vm_compute. do 5 right. left. reflexivity.
  - reflexivity.
Defined.

Lemma calls_row_major_witness :
  filter is_call (fst (run (label:=Z) accept by_x X_two Y_two))
  = map call_at (combine (ravel xx_two) (ravel yy_two)) /\
  length (filter is_call (fst (run (label:=Z) accept by_x X_two Y_two)))
  = (fst (shape xx_two) * snd (shape xx_two))%nat /\
  forall i j x y,
    get xx_two i j = Some x -> get yy_two i j = Some y ->
    nth_error (filter is_call (fst (run (label:=Z) accept by_x X_two Y_two)))
      (i * snd (shape xx_two) + j) = Some (Call [x; y]).
Proof.
  exact (calls_row_major float _ Z nat accept by_x X_two Y_two xx_two yy_two
           grid_two by_x_total).
Defined.

Lemma classifier_error_propagates_witness :
  exists pre q post e',
    combine (ravel xx_two) (ravel yy_two) = pre ++ q :: post /\
    (forall q', In q' pre -> exists r, raises_right [fst q'; snd q'] = inr r) /\
    raises_right [fst q; snd q] = inl e' /\
    run (label:=Z) accept raises_right X_two Y_two
    = (map call_at (pre ++ [q]), inl (Raised e')) /\
    (forall ev, In ev (fst (run (label:=Z) accept raises_right X_two Y_two)) ->
                is_call ev = true).
Proof.
  apply (classifier_error_propagates float _ Z nat accept raises_right X_two Y_two
           xx_two yy_two (0x1.04877baaede21p-1, -0.0015)%float 7%nat).
  - exact grid_two.
  - vm_compute. right. left. reflexivity.
  - reflexivity.
Defined.

Lemma label_grid_shape_witness :
  (exists Z_,
      In (Contourf xx_two yy_two Z_ Spectral)
         (fst (run (label:=Z) (E:=nat) accept by_x X_two Y_two)) /\
      shape Z_ = shape xx_two /\ shape Z_ = shape yy_two /\
      length (ravel Z_) = (fst (shape xx_two) * snd (shape xx_two))%nat) /\
  (forall xx' yy' Z' cm,
      In (Contourf xx' yy' Z' cm)
         (fst (run (label:=Z) (E:=nat) accept by_x X_two Y_two)) ->
      shape Z' = shape xx' /\ shape Z' = shape yy' /\
      length (ravel Z') = (fst (shape xx') * snd (shape xx'))%nat).
Proof.
  exact (label_grid_shape float _ Z nat accept by_x X_two Y_two xx_two yy_two
           grid_two by_x_total eq_refl).
Defined.

(** C3, as stated, fails: on [X_far] the first axis is padded to
    [1e16, 1e16 + 2] and sampled 200 times, and in binary64 every sample
    is 1e16, since adding 0.01 to 1e16 gives 1e16 back: neighbouring
    columns are 0 apart, not 0.01, and every sample is more than one
    step below the padded maximum. *)
Lemma grid_step_lost :
  exists x_min x_max y_min y_max xx yy,
    padded_bounds X_far = inr (x_min, x_max, y_min, y_max) /\
    make_grid X_far = inr (xx, yy) /\
    shape xx = (130, 200)%nat /\
    get xx 0 0 = Some x_min /\ get xx 0 1 = Some x_min /\
    forallb (fun x => PrimFloat.eqb x x_min) (ravel xx) = true /\
    PrimFloat.ltb (x_min + lit 0.01)%num x_max = true.
Proof.
  exists 10000000000000000%float, 10000000000000002%float,
         (-0x1.3333333333333p-3)%float, 0x1.2666666666666p+0%float,
         (fst (meshgrid xs_far ys_far)), (snd (meshgrid xs_far ys_far)).
  repeat split; vm_compute; reflexivity.
Qed.

Lemma grid_is_mesh_witness :
  (exists xx yy,
      make_grid X_two = inr (xx, yy) /\
      shape xx = (length ys_two, length xs_two) /\
      shape yy = (length ys_two, length xs_two) /\
      combine (ravel xx) (ravel yy) = coords xs_two ys_two /\
      (forall i j, (i < length ys_two)%nat -> (j < length xs_two)%nat ->
                   get xx i j = Some (arange_item 0x1.fed186b204b9ep-2%float (lit 0.01) j) /\
                   get yy i j = Some (arange_item (-0.0015)%float (lit 0.01) i)) /\
      (exists len,
          ceil_intp (num_div (num_sub 0x1.04877baaede21p-1%float 0x1.fed186b204b9ep-2%float)
                       (lit 0.01)) = Some len /\
          length xs_two = Z.to_nat len) /\
      (exists len,
          ceil_intp (num_div (num_sub 0.0115%float (-0.0015)%float) (lit 0.01)) = Some len /\
          length ys_two = Z.to_nat len)) /\
  ((exists b, padded_bounds X_two = inr b) /\
   (forall e, make_grid X_two = inl e -> e = ArangeLength)) /\
  ((forall j x, nth_error [0; 1 # 100; 0 + inject_Z 2 * (0 + (1 # 100) - 0)] j = Some x ->
                x == 0 + inject_Z (Z.of_nat j) * 0.01 /\ 0 <= x /\ x < 1 # 40) /\
   1 # 40 <= 0 + inject_Z (Z.of_nat 3) * 0.01)%Q.
Proof.
  split; [|split].
  - apply (proj1 grid_is_mesh float _ X_two
             0x1.fed186b204b9ep-2%float 0x1.04877baaede21p-1%float
             (-0.0015)%float 0.0115%float xs_two ys_two).
    + vm_compute. reflexivity.
    + vm_compute. reflexivity.
    + vm_compute. reflexivity.
  - apply (proj1 (proj2 grid_is_mesh) float _ X_two). discriminate.
  - apply (proj2 (proj2 grid_is_mesh) 0%Q (1 # 40)%Q
             [0; 1 # 100; 0 + inject_Z 2 * (0 + (1 # 100) - 0)]%Q).
    reflexivity.
Defined.

(** C6, as stated, fails: two points and no label at all, drawn by a
    backend that accepts every command.  The call returns. *)
Lemma labels_length_mismatch_returns :
  (length (@nil Z) =? length X_two)%nat = false /\
  snd (run (E:=nat) accept by_x X_two (@nil Z)) = inr tt /\
  In (Scatter (col0 X_two) (col1 X_two) 35%Z (@nil Z) Spectral)
     (fst (run (E:=nat) accept by_x X_two (@nil Z))).
Proof.
  split; [reflexivity|]. split; [vm_compute; reflexivity|].
  vm_compute. do 6 right. left. reflexivity.
Qed.

(** C2, as stated, fails: the first axis of [X_far] has range 2, and in
    binary64 the padding 0.3 is lost when it is taken from 1e16 and when
    it is added to 1e16 + 2, so the padded bounds of that axis are the
    raw bounds. *)
Lemma padding_absorbed :
  exists x_min x_max y_min y_max a b c d,
    raw_bounds X_far = inr (x_min, x_max, y_min, y_max) /\
    padded_bounds X_far = inr (a, b, c, d) /\
    PrimFloat.ltb 0 (x_max - x_min) = true /\
    PrimFloat.ltb a x_min = false /\ PrimFloat.ltb x_max b = false /\
    a = x_min /\ b = x_max.
Proof.
  exists 10000000000000000%float, 10000000000000002%float, 0%float, 1%float,
         10000000000000000%float, 10000000000000002%float,
         (-0x1.3333333333333p-3)%float, 0x1.2666666666666p+0%float.
  repeat split; vm_compute; reflexivity.
Qed.

Lemma padded_bounds_widen_witness :
  (exists x_min x_max y_min y_max,
      raw_bounds X_two = inr (x_min, x_max, y_min, y_max) /\
      padded_bounds X_two
      = inr (x_min - (x_max - x_min) * lit 0.15, x_max + (x_max - x_min) * lit 0.15,
             y_min - (y_max - y_min) * lit 0.15, y_max + (y_max - y_min) * lit 0.15)%num) /\
  (PrimFloat.eqb (5 - 5) 0 = true ->
   PrimFloat.eqb 5 5 = true /\ PrimFloat.eqb 5 5 = true) /\
  (exists a b c d,
      padded_bounds X_exact = inr (a, b, c, d) /\
      (0 < 1 # 50 -> a < 0 /\ 1 # 50 < b) /\
      ((1 # 50) - 0 == 0 -> a == 0 /\ b == 1 # 50) /\
      (0 < 1 # 100 -> c < 0 /\ 1 # 100 < d) /\
      ((1 # 100) - 0 == 0 -> c == 0 /\ d == 1 # 100))%Q.
Proof.
  split; [|split].
  - apply (proj1 padded_bounds_widen float _ X_two). discriminate.
  - apply (proj1 (proj1 (proj2 padded_bounds_widen) [(5, 5)]%float
                    5%float 5%float 5%float 5%float 5%float 5%float 5%float 5%float
                    eq_refl eq_refl)).
  - do 4 eexists. split; [reflexivity|].
    apply (proj2 (proj2 padded_bounds_widen) X_exact
             0%Q (1 # 50)%Q 0%Q (1 # 100)%Q); reflexivity.
Defined.



(** ** Further properties of the call *)

(** The three ways a call can go. *)
Lemma run_cases {num : Type} {SC : Scalar num} {label E : Type}
    (plt : backend (label:=label) (E:=E)) (f : classifier)
    (X : list (num * num)) (Y : list label) :
  (exists e, make_grid X = inl e /\ run plt f X Y = ([], inl (NumPy e))) \/
  (exists xx yy pre rs p post e,
      make_grid X = inr (xx, yy) /\
      combine (ravel xx) (ravel yy) = pre ++ p :: post /\
      Forall2 (scored f) pre rs /\ f [fst p; snd p] = inl e /\
      run plt f X Y = (map call_at (pre ++ [p]), inl (Raised e))) \/
  (exists xx yy rs,
      make_grid X = inr (xx, yy) /\
      Forall2 (scored f) (combine (ravel xx) (ravel yy)) rs /\
      run plt f X Y
      = drawing plt xx yy (mk_ndarray (shape xx) (map threshold rs)) X Y
          (map call_at (combine (ravel xx) (ravel yy)))).
Proof.
  destruct (make_grid X) as [e|[xx yy]] eqn:Hg.
  - left. exists e. split; [reflexivity|]. now apply run_no_grid.
  - right.
    destruct (scored_or_raises f (combine (ravel xx) (ravel yy)))
      as [[rs Hrs]|(pre & rs & p & post & e & Hz & Hpre & Hp)].
    + right. exists xx, yy, rs. repeat split; auto. now apply run_scored.
    + left. exists xx, yy, pre, rs, p, post, e. repeat split; auto.
      now apply (run_raises plt f X Y xx yy pre rs p post e).
Qed.

Lemma make_grid_error {num : Type} {SC : Scalar num} (X : list (num * num))
    (e : np_error) :
  make_grid X = inl e ->
  (e = ZeroSizeReduction /\ X = []) \/ (e = ArangeLength /\ X <> []).
Proof.
  destruct X as [|p X].
  - intros H. left. split; [|reflexivity]. cbv in H. congruence.
  - intros H. right. split; [|discriminate].
    destruct (padded_bounds_nonempty (p :: X)) as [[[[a b] c] d] Hb]; [discriminate|].
    unfold make_grid in H. rewrite Hb in H. unfold arange in H.
    destruct (ceil_intp (num_div (num_sub b a) res)) as [l1|]; [|congruence].
    destruct (intp_max <? l1)%Z; [congruence|].
    destruct (ceil_intp (num_div (num_sub d c) res)) as [l2|]; [|congruence].
    destruct (intp_max <? l2)%Z; [congruence|discriminate].
Qed.

(** X1.  The only exceptions of NumPy a call can end in are the
    zero-size reduction, exactly when there is no point, and the failure
    of [np.arange] to size an axis, only when there are points; the
    reshape of the labels never raises.  Such a call leaves an empty
    trace: [f] was not called and nothing was drawn. *)
Theorem numpy_errors (num : Type) (SC : Scalar num) (label E : Type)
    (plt : backend (label:=label) (E:=E)) (f : classifier)
    (X : list (num * num)) (Y : list label) (e : np_error) :
  snd (run plt f X Y) = inl (NumPy e) ->
  fst (run plt f X Y) = [] /\
  make_grid X = inl e /\
  ((e = ZeroSizeReduction /\ X = []) \/ (e = ArangeLength /\ X <> [])).
Proof.
  intros H.
  destruct (run_cases plt f X Y)
    as [(e0 & Hg & Hr)|[(xx & yy & pre & rs & p & post & e0 & Hg & _ & _ & _ & Hr)
                       |(xx & yy & rs & Hg & _ & Hr)]];
    rewrite Hr in *; simpl in H.
  - injection H as <-. split; [reflexivity|]. split; [exact Hg|].
    now apply make_grid_error.
  - discriminate.
  - exfalso. unfold drawing in H.
    destruct (plt (Figure _)); [discriminate|].
    destruct (plt (Contourf _ _ _ _)); [discriminate|]. simpl in H.
    destruct (plt (Scatter _ _ _ _ _)); discriminate.
Qed.

(** X2.  In the trace of every call the calls of [f] come first and the
    drawing commands after them: no call of [f] follows a drawing
    command.  The drawing commands are an initial part of: the figure of
    size 8 by 6, the filled contour of the grid and its labels, the
    scatter of the two columns of the points with size 35 and the labels
    as colours, the last two with the Spectral map.  Once a command is
    drawn [f] has been called on the whole grid, and a call that returns
    has issued all three. *)
Theorem calls_precede_drawing (num : Type) (SC : Scalar num) (label E : Type)
    (plt : backend (label:=label) (E:=E)) (f : classifier)
    (X : list (num * num)) (Y : list label) :
  exists (pts : list (num * num)) (n : nat) (xx yy : ndarray num) (Z_ : ndarray Z),
    fst (run plt f X Y)
    = map call_at pts
      ++ firstn n [Figure (8, 6)%Z; Contourf xx yy Z_ Spectral;
                   Scatter (col0 X) (col1 X) 35%Z Y Spectral] /\
    (n <= 3)%nat /\
    ((0 < n)%nat ->
     make_grid X = inr (xx, yy) /\ pts = combine (ravel xx) (ravel yy)) /\
    (snd (run plt f X Y) = inr tt -> n = 3%nat).
Proof.
  pose (nil2 := mk_ndarray (A:=num) (0, 0)%nat []).
  pose (nilZ := mk_ndarray (A:=Z) (0, 0)%nat []).
  destruct (run_cases plt f X Y)
    as [(e0 & Hg & Hr)|[(xx & yy & pre & rs & p & post & e0 & Hg & _ & _ & _ & Hr)
                       |(xx & yy & rs & Hg & _ & Hr)]];
    rewrite Hr.
  - exists [], 0%nat, nil2, nil2, nilZ. simpl.
    repeat split; try lia; discriminate.
  - exists (pre ++ [p]), 0%nat, nil2, nil2, nilZ. simpl. rewrite app_nil_r.
    repeat split; try lia; discriminate.
  - unfold drawing.
    destruct (plt (Figure _)); [|destruct (plt (Contourf _ _ _ _))].
    + exists (combine (ravel xx) (ravel yy)), 1%nat, xx, yy,
             (mk_ndarray (shape xx) (map threshold rs)). simpl.
      repeat split; auto; discriminate.
    + exists (combine (ravel xx) (ravel yy)), 2%nat, xx, yy,
             (mk_ndarray (shape xx) (map threshold rs)). simpl.
      repeat split; auto; discriminate.
    + exists (combine (ravel xx) (ravel yy)), 3%nat, xx, yy,
             (mk_ndarray (shape xx) (map threshold rs)). simpl.
      repeat split; auto.
Qed.

(** X3.  A call that ends in a foreign exception ends in what its last
    recorded operation raised, unchanged, and does nothing after it:
    when the trace ends with a call of [f], [f] raised it on that
    vector, and when it ends with a drawing command, the backend raised
    it on that command. *)
Theorem foreign_error_is_last_operation (num : Type) (SC : Scalar num)
    (label E : Type) (plt : backend (label:=label) (E:=E)) (f : classifier)
    (X : list (num * num)) (Y : list label) (e : E) :
  snd (run plt f X Y) = inl (Raised e) ->
  exists tr c,
    fst (run plt f X Y) = tr ++ [c] /\
    match c with
    | Call v => f v = inl e
    | _ => plt c = Some e
    end.
Proof.
  intros H.
  destruct (run_cases plt f X Y)
    as [(e0 & Hg & Hr)|[(xx & yy & pre & rs & p & post & e0 & Hg & _ & _ & Hp & Hr)
                       |(xx & yy & rs & Hg & _ & Hr)]];
    rewrite Hr in *; simpl in H.
  - discriminate.
  - injection H as <-. exists (map call_at pre), (call_at p). split.
    + simpl. now rewrite map_app.
    + exact Hp.
  - unfold drawing in *.
    destruct (plt (Figure _)) as [e1|] eqn:H1.
    { injection H as <-. eexists _, _. split; [reflexivity|]. exact H1. }
    destruct (plt (Contourf _ _ _ _)) as [e2|] eqn:H2.
    { injection H as <-.
      exists (map call_at (combine (ravel xx) (ravel yy)) ++ [Figure (8, 6)%Z]),
             (Contourf xx yy (mk_ndarray (shape xx) (map threshold rs)) Spectral).
      split; [now rewrite <- app_assoc | exact H2]. }
    simpl in H.
    destruct (plt (Scatter _ _ _ _ _)) as [e3|] eqn:H3; [|discriminate].
    injection H as <-.
    exists (map call_at (combine (ravel xx) (ravel yy))
            ++ [Figure (8, 6)%Z;
                Contourf xx yy (mk_ndarray (shape xx) (map threshold rs)) Spectral]),
           (Scatter (col0 X) (col1 X) 35%Z Y Spectral).
    split; [now rewrite <- app_assoc | exact H3].
Qed.

(** X4.  The call depends on the scores of [f] only through their
    labels: two classifiers that both return on the whole grid, with
    scores on the same side of 0.5 at every coordinate, give the same
    trace and the same outcome. *)
Theorem only_labels_matter (num : Type) (SC : Scalar num) (label E : Type)
    (plt : backend (label:=label) (E:=E)) (f g : classifier)
    (X : list (num * num)) (Y : list label) (xx yy : ndarray num) :
  make_grid X = inr (xx, yy) ->
  (forall p, In p (combine (ravel xx) (ravel yy)) ->
             exists r r', f [fst p; snd p] = inr r /\ g [fst p; snd p] = inr r' /\
                          threshold r = threshold r') ->
  run plt f X Y = run plt g X Y.
Proof.
  intros Hg H.
  assert (Hrs : exists rs rs',
             Forall2 (scored f) (combine (ravel xx) (ravel yy)) rs /\
             Forall2 (scored g) (combine (ravel xx) (ravel yy)) rs' /\
             map threshold rs = map threshold rs').
  { induction (combine (ravel xx) (ravel yy)) as [|p pts IH].
    - exists [], []. repeat split; constructor.
    - destruct (H p (or_introl eq_refl)) as (r & r' & Hf & Hg' & Ht).
      destruct IH as (rs & rs' & H1 & H2 & H3); [intros q Hq; apply H; now right|].
      exists (r :: rs), (r' :: rs'). repeat split; try (constructor; assumption).
      simpl. now rewrite Ht, H3. }
  destruct Hrs as (rs & rs' & H1 & H2 & H3).
  rewrite (run_scored plt f X Y xx yy rs Hg H1), (run_scored plt g X Y xx yy rs' Hg H2).
  now rewrite H3.
Qed.

(** ** Further properties in binary64 *)

Module F64More.

Lemma is_nan_SF (x : float) : PrimFloat.is_nan x = true <-> Prim2SF x = S754_nan.
Proof.
  unfold PrimFloat.is_nan. rewrite FloatAxioms.eqb_spec.
  destruct (Prim2SF x) as [s|s| |s m e]; unfold SFeqb; simpl.
  - split; discriminate.
  - destruct s; split; discriminate.
  - split; reflexivity.
  - rewrite Z.compare_refl.
    assert (H : Pos.compare_cont Eq m m = Eq) by apply Pos.compare_refl.
    unfold Pos.compare in H. destruct s; simpl; rewrite ?H; split; discriminate.
Qed.

Lemma is_finite_SF (x : float) :
  PrimFloat.is_finite x = true ->
  (exists s, Prim2SF x = S754_zero s) \/ (exists s m e, Prim2SF x = S754_finite s m e).
Proof.
  unfold PrimFloat.is_finite, PrimFloat.is_infinity. intros H.
  apply negb_true_iff, orb_false_iff in H. destruct H as [Hn Hi].
  rewrite FloatAxioms.eqb_spec, abs_spec in Hi.
  destruct (Prim2SF x) as [s|s| |s m e] eqn:Hx.
  - left. now exists s.
  - discriminate Hi.
  - assert (Hn' : PrimFloat.is_nan x = true) by now apply is_nan_SF.
    congruence.
  - right. now exists s, m, e.
Qed.

Lemma SFsub_diag (x : spec_float) :
  (exists s, x = S754_zero s) \/ (exists s m e, x = S754_finite s m e) ->
  SF64sub x x = S754_zero false.
Proof.
  intros [[s ->]|(s & m & e & ->)]; unfold SF64sub, SFsub.
  - destruct s; reflexivity.
  - rewrite Z.sub_diag. reflexivity.
Qed.

Lemma lit_res : Prim2SF (lit 0.01) = S754_finite false 5764607523034235 (-59).
Proof. reflexivity. Qed.

(** An axis on which the smallest and the largest value are the same
    finite number is not sampled at all. *)
Lemma arange_degenerate (x : float) :
  PrimFloat.is_finite x = true ->
  arange (x - (x - x) * padding)%num (x + (x - x) * padding)%num res = inr [].
Proof.
  intros Hf. apply is_finite_SF in Hf.
  assert (Hr : Prim2SF (x - x) = S754_zero false).
  { rewrite FloatAxioms.sub_spec. now apply SFsub_diag. }
  assert (Hp : Prim2SF ((x - x) * lit 0.15) = S754_zero false).
  { rewrite FloatAxioms.mul_spec, Hr, F64Facts.lit_padding. reflexivity. }
  assert (Ha : (x - (x - x) * lit 0.15)%float = x).
  { apply Prim2SF_inj. rewrite FloatAxioms.sub_spec, Hp.
    destruct Hf as [[s Hx]|(s & m & e & Hx)]; rewrite Hx; [destruct s|]; reflexivity. }
  assert (Hb : Prim2SF (x + (x - x) * lit 0.15)
               = match Prim2SF x with S754_zero _ => S754_zero false | v => v end).
  { rewrite FloatAxioms.add_spec, Hp.
    destruct Hf as [[s Hx]|(s & m & e & Hx)]; rewrite Hx; [destruct s|]; reflexivity. }
  assert (Hd : Prim2SF ((x + (x - x) * lit 0.15) - (x - (x - x) * lit 0.15))
               = S754_zero false).
  { rewrite Ha, FloatAxioms.sub_spec, Hb.
    destruct Hf as [[s Hx]|(s & m & e & Hx)]; rewrite Hx.
    - destruct s; reflexivity.
    - apply SFsub_diag. right. now exists s, m, e. }
  unfold arange, padding, res.
  cbv [ceil_intp num_div num_sub num_add num_mul lit float_Scalar F64.ceil] in *.
  rewrite FloatAxioms.div_spec, Hd.
  change (Prim2SF (F64.of_decimal 0.01)) with (S754_finite false 5764607523034235 (-59)).
  reflexivity.
Qed.

Lemma fold_minimum_same (l : list float) (x : float) :
  Forall (fun y => y = x) l -> fold_left np_minimum l x = x.
Proof.
  induction 1 as [|y l -> _ IH]; simpl; [reflexivity|].
  replace (np_minimum x x) with x; [exact IH|].
  unfold np_minimum. destruct (isnan x), (num_ltb x x); reflexivity.
Qed.

Lemma fold_maximum_same (l : list float) (x : float) :
  Forall (fun y => y = x) l -> fold_left np_maximum l x = x.
Proof.
  induction 1 as [|y l -> _ IH]; simpl; [reflexivity|].
  replace (np_maximum x x) with x; [exact IH|].
  unfold np_maximum. destruct (isnan x), (num_ltb x x); reflexivity.
Qed.

Lemma flat_map_nil {A B : Type} (l : list A) : flat_map (fun _ => @nil B) l = [].
Proof. induction l as [|a l IH]; simpl; [reflexivity | exact IH]. Qed.

Lemma raw_bounds_same_x (X : list (float * float)) (x : float) :
  X <> [] -> Forall (fun p => fst p = x) X ->
  exists y_min y_max, raw_bounds X = inr (x, x, y_min, y_max).
Proof.
  destruct X as [|q X]; [congruence|]. intros _ H.
  inversion H as [|q' X' Hq HX]; subst.
  assert (HX' : Forall (fun y => y = fst q) (map fst X)).
  { apply Forall_map. exact HX. }
  unfold raw_bounds, np_min, np_max, col0, col1. cbn [map].
  rewrite (fold_minimum_same _ _ HX'), (fold_maximum_same _ _ HX').
  eexists _, _. reflexivity.
Qed.

Lemma raw_bounds_same_y (X : list (float * float)) (y : float) :
  X <> [] -> Forall (fun p => snd p = y) X ->
  exists x_min x_max, raw_bounds X = inr (x_min, x_max, y, y).
Proof.
  destruct X as [|q X]; [congruence|]. intros _ H.
  inversion H as [|q' X' Hq HX]; subst.
  assert (HX' : Forall (fun z => z = snd q) (map snd X)).
  { apply Forall_map. exact HX. }
  unfold raw_bounds, np_min, np_max, col0, col1. cbn [map].
  rewrite (fold_minimum_same _ _ HX'), (fold_maximum_same _ _ HX').
  eexists _, _. reflexivity.
Qed.

(** A grid built over a degenerate axis has no entry. *)
Lemma degenerate_grid (X : list (float * float)) (xx yy : ndarray float) :
  X <> [] ->
  (exists x, Forall (fun p => fst p = x) X /\ PrimFloat.is_finite x = true) \/
  (exists y, Forall (fun p => snd p = y) X /\ PrimFloat.is_finite y = true) ->
  make_grid X = inr (xx, yy) ->
  ravel xx = [] /\ ravel yy = [] /\ (fst (shape xx) * snd (shape xx) = 0)%nat.
Proof.
  intros HX Hdeg Hg.
  destruct (make_grid_inv _ _ _ Hg) as (a & b & c & d & xs & ys & Hb & Hx & Hy & Hm).
  unfold padded_bounds in Hb.
  assert (Hnil : xs = [] \/ ys = []).
  { destruct Hdeg as [(x & Hall & Hf)|(y & Hall & Hf)].
    - destruct (raw_bounds_same_x X x HX Hall) as (ym & yM & Hr).
      rewrite Hr in Hb. injection Hb as <- <- <- <-. left.
      assert (Hd : @inr np_error _ xs = inr [])
        by (rewrite <- Hx; exact (arange_degenerate x Hf)).
      congruence.
    - destruct (raw_bounds_same_y X y HX Hall) as (xm & xM & Hr).
      rewrite Hr in Hb. injection Hb as <- <- <- <-. right.
      assert (Hd : @inr np_error _ ys = inr [])
        by (rewrite <- Hy; exact (arange_degenerate y Hf)).
      congruence. }
  unfold meshgrid in Hm. injection Hm as -> ->. simpl.
  destruct Hnil as [-> | ->]; simpl.
  - rewrite !flat_map_nil. repeat split; lia.
  - repeat split; reflexivity.
Qed.

Lemma SF_nan_sub_l (y : spec_float) : SF64sub S754_nan y = S754_nan.
Proof. reflexivity. Qed.

Lemma SF_nan_sub_r (x : spec_float) : SF64sub x S754_nan = S754_nan.
Proof. destruct x; reflexivity. Qed.

Lemma np_minimum_nan (a b : float) :
  PrimFloat.is_nan a = true \/ PrimFloat.is_nan b = true ->
  PrimFloat.is_nan (np_minimum a b) = true.
Proof.
  unfold np_minimum. cbv [isnan num_ltb float_Scalar].
  destruct (PrimFloat.is_nan a) eqn:Ha; [auto|].
  intros [H|H]; [discriminate|].
  rewrite FloatAxioms.ltb_spec.
  pose proof (proj1 (is_nan_SF b) H) as Hb. rewrite Hb.
  replace (SFltb (Prim2SF a) S754_nan) with false; [exact H|].
  unfold SFltb. destruct (Prim2SF a); reflexivity.
Qed.

Lemma np_maximum_nan (a b : float) :
  PrimFloat.is_nan a = true \/ PrimFloat.is_nan b = true ->
  PrimFloat.is_nan (np_maximum a b) = true.
Proof.
  unfold np_maximum. cbv [isnan num_ltb float_Scalar].
  destruct (PrimFloat.is_nan a) eqn:Ha; [auto|].
  intros [H|H]; [discriminate|].
  rewrite FloatAxioms.ltb_spec.
  pose proof (proj1 (is_nan_SF b) H) as Hb. rewrite Hb.
  exact H.
Qed.

Lemma fold_nan (op : float -> float -> float) (l : list float) (x : float) :
  (forall a b, PrimFloat.is_nan a = true \/ PrimFloat.is_nan b = true ->
               PrimFloat.is_nan (op a b) = true) ->
  PrimFloat.is_nan x = true \/ (exists y, In y l /\ PrimFloat.is_nan y = true) ->
  PrimFloat.is_nan (fold_left op l x) = true.
Proof.
  intros Hop. revert x. induction l as [|z l IH]; intros x H; simpl.
  - destruct H as [H|(y & [] & _)]. exact H.
  - apply IH. destruct H as [H|(y & [<-|Hy] & Hn)].
    + left. apply Hop. now left.
    + left. apply Hop. now right.
    + right. now exists y.
Qed.

(** [np.arange] cannot size an axis one of whose bounds is a NaN. *)
Lemma arange_nan (a b : float) :
  PrimFloat.is_nan a = true \/ PrimFloat.is_nan b = true ->
  arange a b res = inl ArangeLength.
Proof.
  intros H.
  assert (Hd : Prim2SF (b - a) = S754_nan).
  { rewrite FloatAxioms.sub_spec.
    destruct H as [H|H]; apply is_nan_SF in H; rewrite H;
      [apply SF_nan_sub_r | apply SF_nan_sub_l]. }
  unfold arange, res.
  cbv [ceil_intp num_div num_sub lit float_Scalar F64.ceil].
  rewrite FloatAxioms.div_spec, Hd. reflexivity.
Qed.

Lemma padded_nan (m M : float) :
  PrimFloat.is_nan m = true -> PrimFloat.is_nan M = true ->
  PrimFloat.is_nan (m - (M - m) * padding)%num = true /\
  PrimFloat.is_nan (M + (M - m) * padding)%num = true.
Proof.
  intros Hm HM. apply is_nan_SF in Hm, HM.
  cbv [num_sub num_add num_mul float_Scalar].
  split; apply is_nan_SF.
  - now rewrite FloatAxioms.sub_spec, Hm.
  - now rewrite FloatAxioms.add_spec, HM.
Qed.

Lemma make_grid_nan (X : list (float * float)) :
  (exists p, In p X /\
             (PrimFloat.is_nan (fst p) = true \/ PrimFloat.is_nan (snd p) = true)) ->
  make_grid X = inl ArangeLength.
Proof.
  intros (p & Hp & Hn).
  destruct X as [|q X]; [contradiction|].
  assert (Hcol : forall (g : float * float -> float),
             PrimFloat.is_nan (g p) = true ->
             PrimFloat.is_nan (fold_left np_minimum (map g X) (g q)) = true /\
             PrimFloat.is_nan (fold_left np_maximum (map g X) (g q)) = true).
  { intros g Hg.
    assert (H : PrimFloat.is_nan (g q) = true \/
                exists y, In y (map g X) /\ PrimFloat.is_nan y = true).
    { destruct Hp as [<-|Hp]; [now left|].
      right. exists (g p). split; [now apply in_map | exact Hg]. }
    split; apply fold_nan; auto using np_minimum_nan, np_maximum_nan. }
  unfold make_grid, padded_bounds, raw_bounds, np_min, np_max, col0, col1.
  cbn [map].
  destruct Hn as [Hn|Hn].
  - destruct (Hcol fst Hn) as [H1 H2].
    destruct (padded_nan _ _ H1 H2) as [H3 _].
    rewrite (arange_nan _ _ (or_introl H3)). reflexivity.
  - destruct (Hcol snd Hn) as [H1 H2].
    destruct (padded_nan _ _ H1 H2) as [H3 _].
    rewrite (arange_nan _ _ (or_introl H3)).
    match goal with |- context [arange ?a ?b res] =>
      destruct (arange a b res) as [e|xs] eqn:Hx end; [|reflexivity].
    unfold arange in Hx.
    repeat match type of Hx with
           | context [match ?c with _ => _ end] => destruct c
           end; congruence.
Qed.

End F64More.

(** X7.  In binary64, a dataset whose points all have the same finite
    abscissa, or all the same finite ordinate (a single point has both),
    gets an axis with no sample: whatever grid is built has no entry,
    the classifier is never called, and a contour that is drawn is drawn
    over empty arrays. *)
Theorem degenerate_axis_no_calls (label E : Type)
    (plt : backend (label:=label) (E:=E)) (f : classifier)
    (X : list (float * float)) (Y : list label) :
  X <> [] ->
  (exists x, Forall (fun p => fst p = x) X /\ PrimFloat.is_finite x = true) \/
  (exists y, Forall (fun p => snd p = y) X /\ PrimFloat.is_finite y = true) ->
  (forall xx yy, make_grid X = inr (xx, yy) ->
                 ravel xx = [] /\ ravel yy = [] /\
                 (fst (shape xx) * snd (shape xx) = 0)%nat) /\
  (forall ev, In ev (fst (run plt f X Y)) -> is_call ev = false) /\
  (forall xx yy Z_ cm, In (Contourf xx yy Z_ cm) (fst (run plt f X Y)) ->
                       ravel xx = [] /\ ravel yy = [] /\ ravel Z_ = []).
Proof.
  intros HX Hdeg.
  pose proof (fun xx yy => F64More.degenerate_grid X xx yy HX Hdeg) as Hgrid.
  split; [exact Hgrid|]. split.
  - intros ev Hev. destruct ev as [v| | |]; try reflexivity.
    exfalso. apply call_in_run in Hev. destruct Hev as (xx & yy & p & Hg & Hp & _).
    destruct (Hgrid xx yy Hg) as (Hxx & _). rewrite Hxx in Hp. exact Hp.
  - intros xx yy Z_ cm Hin. apply contourf_in_run in Hin.
    destruct Hin as (Hg & _ & rs & Hrs & ->).
    destruct (Hgrid xx yy Hg) as (Hxx & Hyy & _).
    rewrite Hxx in Hrs. simpl in Hrs. inversion Hrs. auto.
Qed.

(** X8.  In binary64, a dataset with a NaN coordinate makes the call end
    in the failure of [np.arange] to size an axis, before any call of
    the classifier and any drawing. *)
Theorem nan_point_fails (label E : Type)
    (plt : backend (label:=label) (E:=E)) (f : classifier)
    (X : list (float * float)) (Y : list label) (p : float * float) :
  In p X ->
  PrimFloat.is_nan (fst p) = true \/ PrimFloat.is_nan (snd p) = true ->
  run plt f X Y = ([], inl (NumPy ArangeLength)).
Proof.
  intros Hp Hn. apply run_no_grid. apply F64More.make_grid_nan. now exists p.
Qed.

(** ** The further properties at concrete inputs *)

Import MoreInputs.

Lemma numpy_errors_witness :
  fst (run (label:=Z) (E:=nat) accept by_x X_nan Y_two) = [] /\
  make_grid X_nan = inl ArangeLength /\
  ((ArangeLength = ZeroSizeReduction /\ X_nan = []) \/
   (ArangeLength = ArangeLength /\ X_nan <> [])).
Proof.
  apply (numpy_errors float _ Z nat accept by_x X_nan Y_two ArangeLength).
  reflexivity.
Defined.

Lemma foreign_error_is_last_operation_witness :
  exists tr c,
    fst (run refuse_contour by_x X_two Y_two) = tr ++ [c] /\
    match c with
    | Call v => by_x v = inl 3%nat
    | _ => refuse_contour c = Some 3%nat
    end.
Proof.
  apply (foreign_error_is_last_operation float _ Z nat refuse_contour by_x X_two Y_two).
  reflexivity.
Defined.

Lemma only_labels_matter_witness :
  run (label:=Z) accept by_x X_two Y_two = run accept step_x X_two Y_two.
Proof.
  apply (only_labels_matter float _ Z nat accept by_x step_x X_two Y_two xx_two yy_two).
  - vm_compute. reflexivity.
  - intros p Hp. vm_compute in Hp.
    repeat (destruct Hp as [<-|Hp]; [do 2 eexists; repeat split|]);
      contradiction.
Defined.

Lemma degenerate_axis_no_calls_witness :
  (forall xx yy, make_grid X_one = inr (xx, yy) ->
                 ravel xx = [] /\ ravel yy = [] /\
                 (fst (shape xx) * snd (shape xx) = 0)%nat) /\
  (forall ev, In ev (fst (run (label:=Z) (E:=nat) accept by_x X_one Y_two)) ->
              is_call ev = false) /\
  (forall xx yy Z_ cm,
      In (Contourf xx yy Z_ cm) (fst (run (label:=Z) (E:=nat) accept by_x X_one Y_two)) ->
      ravel xx = [] /\ ravel yy = [] /\ ravel Z_ = []).
Proof.
  apply (degenerate_axis_no_calls Z nat accept by_x X_one Y_two).
  - discriminate.
  - left. exists 5%float. split; [repeat constructor | reflexivity].
Defined.

Lemma nan_point_fails_witness :
  run (label:=Z) (E:=nat) accept by_x X_nan Y_two = ([], inl (NumPy ArangeLength)).
Proof.
  apply (nan_point_fails Z nat accept by_x X_nan Y_two (nan, 1)%float).
  - right. left. reflexivity.
  - left. reflexivity.
Defined.
